(** * lorina: the Verilog AST graph (include/lorina/verilog/ast_graph.hpp)

    A shallow embedding of the node taxonomy, of the handle-or-error value
    and of the arena [verilog_ast_graph] with its two intern tables, followed
    by the properties of the arena that the specification states.

    Conventions.
    - [ast_id] is the C++ [uint32_t]; it is carried by [N] and every place
      where the source narrows to 32 bits is written out with [mod 2^32].
    - A C++ class derived from [ast_node] is a record holding the two base
      fields [id_] and [children_] and a [variant_] giving the dynamic type
      together with the data members the derived class adds.
    - A call that can leave the normal control flow returns an [outcome]. *)

From Stdlib Require Import NArith Lia.
From stdpp Require Import base numbers option list strings gmap.

Local Open Scope N_scope.

(** ** Outcomes of a call *)

(** What a call of the C++ code can do besides returning a value. *)
Inductive outcome (A : Type) : Type :=
  | Ret (a : A)            (* normal return *)
  | Abort                  (* [std::abort()] is reached *)
  | Assert_fail            (* an [assert] is violated: abort, or with NDEBUG
                              execution continues outside of the contract *)
  | Throw_out_of_range     (* [std::vector::at] throws [std::out_of_range] *)
  | Undefined.             (* undefined behaviour: [operator[]] out of bounds,
                              a [static_cast] to a class the object is not of *)
Arguments Ret {A} a.
Arguments Abort {A}.
Arguments Assert_fail {A}.
Arguments Throw_out_of_range {A}.
Arguments Undefined {A}.

#[global] Instance outcome_ret : MRet outcome := @Ret.
#[global] Instance outcome_bind : MBind outcome := λ A B f m,
  match m with
  | Ret a => f a
  | Abort => Abort
  | Assert_fail => Assert_fail
  | Throw_out_of_range => Throw_out_of_range
  | Undefined => Undefined
  end.

(** The process is terminated by the call. *)
Definition terminates_fatally {A} (o : outcome A) : Prop := o = Abort.

(** ** Handles *)

Definition ast_id : Type := N.

(** The values of [uint32_t]. *)
Definition uint32_max : N := 2 ^ 32.
Definition to_uint32 (n : N) : ast_id := n mod uint32_max.

(** ** Node taxonomy *)

Inductive sign_kind : Type :=
  | SIGN_MINUS.

Inductive expr_kind : Type :=
  | EXPR_ADD
  | EXPR_MUL
  | EXPR_NOT
  | EXPR_AND
  | EXPR_OR
  | EXPR_XOR.

Definition sign_kind_tag (k : sign_kind) : N :=
  match k with SIGN_MINUS => 1 end.

Definition expr_kind_tag (k : expr_kind) : N :=
  match k with
  | EXPR_ADD => 1 | EXPR_MUL => 2 | EXPR_NOT => 3
  | EXPR_AND => 4 | EXPR_OR => 5 | EXPR_XOR => 6
  end.

(** The members [word_level_], [hi_], [lo_] of the three declaration classes.
    The one-argument constructor sets [word_level_] to false and leaves [hi_]
    and [lo_] without a value; the other one sets all three. *)
Inductive decl_range : Type :=
  | Bit_level
  | Word_level (hi lo : ast_id).

(** Dynamic type of a node with the data members of the derived class. *)
Inductive ast_variant : Type :=
  | Numeral (value : string)
  | Identifier (identifier : string)
  | ArithmeticIdentifier (identifier : string)
  | IdentifierList
  | ArraySelect
  | RangeExpression
  | Sign (kind : sign_kind)
  | Expression (kind : expr_kind)
  | SystemFunction (fun_ : ast_id)
  | InputDeclaration (range : decl_range)
  | OutputDeclaration (range : decl_range)
  | WireDeclaration (range : decl_range)
  | ModuleInstantiation (module_name instance_name : ast_id)
      (port_assignment : list (ast_id * ast_id)) (parameters : list ast_id)
  | ParameterDeclaration
  | Assignment
  | Module (module_name : string) (args decls : list ast_id).

Record ast_node : Type := mk_ast_node {
  id_ : ast_id;
  children_ : list ast_id;
  variant_ : ast_variant
}.

(** *** Constructors, one per C++ constructor *)

Definition ast_numeral (id : ast_id) (value : string) : ast_node :=
  mk_ast_node id [] (Numeral value).

Definition ast_identifier (id : ast_id) (identifier : string) : ast_node :=
  mk_ast_node id [] (Identifier identifier).

Definition ast_arithmetic_identifier (id : ast_id) (identifier : string) : ast_node :=
  mk_ast_node id [] (ArithmeticIdentifier identifier).

Definition ast_identifier_list (id : ast_id) (identifiers : list ast_id) : ast_node :=
  mk_ast_node id identifiers IdentifierList.

Definition ast_array_select (id array index : ast_id) : ast_node :=
  mk_ast_node id [array; index] ArraySelect.

Definition ast_range_expression (id hi lo : ast_id) : ast_node :=
  mk_ast_node id [hi; lo] RangeExpression.

Definition ast_sign (id : ast_id) (kind : sign_kind) (expr : ast_id) : ast_node :=
  mk_ast_node id [expr] (Sign kind).

Definition ast_expression1 (id : ast_id) (kind : expr_kind) (left : ast_id) : ast_node :=
  mk_ast_node id [left] (Expression kind).

Definition ast_expression2 (id : ast_id) (kind : expr_kind) (left right : ast_id) : ast_node :=
  mk_ast_node id [left; right] (Expression kind).

Definition ast_system_function (id fun_ : ast_id) (args : list ast_id) : ast_node :=
  mk_ast_node id args (SystemFunction fun_).

Definition ast_input_declaration (id : ast_id) (identifiers : list ast_id) : ast_node :=
  mk_ast_node id identifiers (InputDeclaration Bit_level).

Definition ast_input_declaration_range (id : ast_id) (identifiers : list ast_id)
    (hi lo : ast_id) : ast_node :=
  mk_ast_node id identifiers (InputDeclaration (Word_level hi lo)).

Definition ast_output_declaration (id : ast_id) (identifiers : list ast_id) : ast_node :=
  mk_ast_node id identifiers (OutputDeclaration Bit_level).

Definition ast_output_declaration_range (id : ast_id) (identifiers : list ast_id)
    (hi lo : ast_id) : ast_node :=
  mk_ast_node id identifiers (OutputDeclaration (Word_level hi lo)).

Definition ast_wire_declaration (id : ast_id) (identifiers : list ast_id) : ast_node :=
  mk_ast_node id identifiers (WireDeclaration Bit_level).

Definition ast_wire_declaration_range (id : ast_id) (identifiers : list ast_id)
    (hi lo : ast_id) : ast_node :=
  mk_ast_node id identifiers (WireDeclaration (Word_level hi lo)).

Definition ast_module_instantiation (id module_name instance_name : ast_id)
    (port_assignment : list (ast_id * ast_id)) (parameters : list ast_id) : ast_node :=
  mk_ast_node id [] (ModuleInstantiation module_name instance_name port_assignment parameters).

Definition ast_parameter_declaration (id identifier expr : ast_id) : ast_node :=
  mk_ast_node id [identifier; expr] ParameterDeclaration.

Definition ast_assignment (id signal expr : ast_id) : ast_node :=
  mk_ast_node id [signal; expr] Assignment.

Definition ast_module (id : ast_id) (module_name : string) (args decls : list ast_id) : ast_node :=
  mk_ast_node id [] (Module module_name args decls).

(** *** Members of the base class *)

Definition id (n : ast_node) : ast_id := id_ n.

Definition is_leaf (n : ast_node) : bool :=
  N.of_nat (length (children_ n)) =? 0.

(** [foreach_child] on a const node: the callback is run on each child in
    order; its effect is a transformer of the caller's state [S]. *)
Definition foreach_child {S : Type} (fn : ast_id → S → S) (n : ast_node) (s : S) : S :=
  foldl (λ acc child, fn child acc) s (children_ n).

(** [foreach_child] on a non-const node: the callback receives a reference
    to the child and may overwrite it. *)
Fixpoint foreach_ref {S : Type} (fn : ast_id → S → ast_id * S)
    (cs : list ast_id) (s : S) : list ast_id * S :=
  match cs with
  | [] => ([], s)
  | child :: rest =>
      let '(child', s1) := fn child s in
      let '(rest', s2) := foreach_ref fn rest s1 in
      (child' :: rest', s2)
  end.

Definition foreach_child_mut {S : Type} (fn : ast_id → S → ast_id * S)
    (n : ast_node) (s : S) : ast_node * S :=
  let '(cs, s') := foreach_ref fn (children_ n) s in
  (mk_ast_node (id_ n) cs (variant_ n), s').

(** The children a traversal with [foreach_child] visits, in order. *)
Definition visited (n : ast_node) : list ast_id :=
  foreach_child (λ child acc, acc ++ [child]) n [].

(** How often [foreach_child] runs its callback. *)
Definition visits (n : ast_node) : nat :=
  foreach_child (λ _ k, S k) n 0%nat.

(** *** Members of the derived classes *)

(** [children_[k]] through [operator[]]. *)
Definition child_at (n : ast_node) (k : nat) : outcome ast_id :=
  match children_ n !! k with
  | Some c => Ret c
  | None => Undefined
  end.

(** [ast_identifier_list::identifiers], and [identifiers] of a declaration. *)
Definition identifiers (n : ast_node) : list ast_id := children_ n.

(** [ast_range_expression::hi] and [lo]. *)
Definition range_hi (n : ast_node) : outcome ast_id := child_at n 0.
Definition range_lo (n : ast_node) : outcome ast_id := child_at n 1.

(** [ast_system_function::args]. *)
Definition system_function_args (n : ast_node) : list ast_id := children_ n.

(** The range members of a declaration node; [None] on another variant. *)
Definition declaration_range (n : ast_node) : option decl_range :=
  match variant_ n with
  | InputDeclaration r | OutputDeclaration r | WireDeclaration r => Some r
  | _ => None
  end.

Definition word_level_of (r : decl_range) : bool :=
  match r with Bit_level => false | Word_level _ _ => true end.

(** [word_level], [bit_level], [hi], [lo] of the three declaration classes. *)
Definition word_level (n : ast_node) : option bool :=
  word_level_of <$> declaration_range n.

Definition bit_level (n : ast_node) : option bool :=
  negb <$> word_level n.



(** ** The handle-or-error value [verilog_ast_graph::ast_or_error] *)

Module ast_or_error.

Record t : Type := mk { ast_ : ast_id }.

(** [explicit ast_or_error( ast_id ast )]: [ast_ |= 0x80000000]. *)
Definition of_ast (a : ast_id) : t := mk (N.lor a 0x80000000).

(** [explicit ast_or_error()]. *)
Definition default : t := mk 0.

(** [ast_ & 0x7FFFFFFF]. *)
Definition ast (e : t) : ast_id := N.land (ast_ e) 0x7FFFFFFF.

(** [ast_ & 0x80000000], converted to [bool]. *)
Definition valid (e : t) : bool := negb (N.land (ast_ e) 0x80000000 =? 0).

(** [operator bool]. *)
Definition to_bool (e : t) : bool := valid e.

(** The values the two constructors can produce from a [uint32_t]. *)
Definition constructed (e : t) : Prop :=
  e = default ∨ ∃ a : ast_id, a < uint32_max ∧ e = of_ast a.

End ast_or_error.

(** ** The arena [verilog_ast_graph] *)

Record verilog_ast_graph : Type := mk_graph {
  nodes_ : list ast_node;
  identifier_hash_ : gmap string ast_id;
  arithmetic_identifier_hash_ : gmap string ast_id
}.

(** The default-constructed graph. *)
Definition empty_graph : verilog_ast_graph := mk_graph [] ∅ ∅.

(** [nodes_.size()]. *)
Definition size (g : verilog_ast_graph) : N := N.of_nat (length (nodes_ g)).

(** [unordered_map::emplace]: no effect when the key is present. *)
Definition emplace (k : string) (v : ast_id) (m : gmap string ast_id) : gmap string ast_id :=
  match m !! k with
  | Some _ => m
  | None => <[k := v]> m
  end.

(** [node_ptr]: [nodes_.at( id )]. *)
Definition node_ptr (g : verilog_ast_graph) (id : ast_id) : outcome ast_node :=
  match nodes_ g !! N.to_nat id with
  | Some n => Ret n
  | None => Throw_out_of_range
  end.

(** [create_node<T>( args... )]: [mk] is [T]'s constructor applied to
    [args...], waiting for the index; the index is [nodes_.size()] narrowed
    to [uint32_t]. *)
Definition create_node (mk : ast_id → ast_node) (g : verilog_ast_graph)
    : ast_id * verilog_ast_graph :=
  let index := to_uint32 (size g) in
  (index, mk_graph (nodes_ g ++ [mk index]) (identifier_hash_ g) (arithmetic_identifier_hash_ g)).

Definition create_numeral (numeral : string) (g : verilog_ast_graph) :=
  create_node (λ i, ast_numeral i numeral) g.

Definition create_identifier (identifier : string) (g : verilog_ast_graph)
    : ast_id * verilog_ast_graph :=
  match identifier_hash_ g !! identifier with
  | None =>
      let '(id, g1) := create_node (λ i, ast_identifier i identifier) g in
      (id, mk_graph (nodes_ g1) (emplace identifier id (identifier_hash_ g1))
                    (arithmetic_identifier_hash_ g1))
  | Some second => (second, g)
  end.

Definition create_arithmetic_identifier (identifier : string) (g : verilog_ast_graph)
    : ast_id * verilog_ast_graph :=
  match arithmetic_identifier_hash_ g !! identifier with
  | None =>
      let '(id, g1) := create_node (λ i, ast_arithmetic_identifier i identifier) g in
      (id, mk_graph (nodes_ g1) (identifier_hash_ g1)
                    (emplace identifier id (arithmetic_identifier_hash_ g1)))
  | Some second => (second, g)
  end.

Definition create_identifier_list (identifier_list : list ast_id) (g : verilog_ast_graph) :=
  create_node (λ i, ast_identifier_list i identifier_list) g.

Definition create_range_expression (hi lo : ast_id) (g : verilog_ast_graph) :=
  create_node (λ i, ast_range_expression i hi lo) g.

Definition create_array_select (array index : ast_id) (g : verilog_ast_graph) :=
  create_node (λ i, ast_array_select i array index) g.

Definition create_sum_expression (term expr : ast_id) (g : verilog_ast_graph) :=
  create_node (λ i, ast_expression2 i EXPR_ADD term expr) g.

Definition create_negative_sign (expr : ast_id) (g : verilog_ast_graph) :=
  create_node (λ i, ast_sign i SIGN_MINUS expr) g.

Definition create_mul_expression (term expr : ast_id) (g : verilog_ast_graph) :=
  create_node (λ i, ast_expression2 i EXPR_MUL term expr) g.

Definition create_not_expression (expr : ast_id) (g : verilog_ast_graph) :=
  create_node (λ i, ast_expression1 i EXPR_NOT expr) g.

Definition create_and_expression (term expr : ast_id) (g : verilog_ast_graph) :=
  create_node (λ i, ast_expression2 i EXPR_AND term expr) g.

Definition create_or_expression (term expr : ast_id) (g : verilog_ast_graph) :=
  create_node (λ i, ast_expression2 i EXPR_OR term expr) g.

Definition create_xor_expression (term expr : ast_id) (g : verilog_ast_graph) :=
  create_node (λ i, ast_expression2 i EXPR_XOR term expr) g.

Definition create_system_function (fun_ : ast_id) (args : list ast_id) (g : verilog_ast_graph) :=
  create_node (λ i, ast_system_function i fun_ args) g.

(** [assert( id < nodes_.size() ); ... nodes_[id]]. *)
Definition checked_node (g : verilog_ast_graph) (id : ast_id) : outcome ast_node :=
  if id <? size g then
    match nodes_ g !! N.to_nat id with
    | Some n => Ret n
    | None => Undefined
    end
  else Assert_fail.

(** The adapters. [dynamic_cast] succeeds exactly on the named class, no
    class of the taxonomy derives from another one. *)
Definition create_input_declaration (id : ast_id) (g : verilog_ast_graph)
    : outcome (ast_id * verilog_ast_graph) :=
  node ← checked_node g id;
  match variant_ node with
  | IdentifierList =>
      Ret (create_node (λ i, ast_input_declaration i (identifiers node)) g)
  | Identifier _ =>
      Ret (create_node (λ i, ast_input_declaration i [id]) g)
  | _ => Abort
  end.

(** [static_cast<ast_range_expression*>( node )]: the cast checks nothing,
    and it is defined only when the node is an [ast_range_expression]. *)
Definition static_cast_range_expression (n : ast_node) : outcome ast_node :=
  match variant_ n with
  | RangeExpression => Ret n
  | _ => Undefined
  end.

(** In the two-argument adapters [nodes_[rid]] goes through this cast before
    the class of the node at [id] is looked at. *)
Definition create_input_declaration_range (id rid : ast_id) (g : verilog_ast_graph)
    : outcome (ast_id * verilog_ast_graph) :=
  node ← checked_node g id;
  range ← checked_node g rid;
  range ← static_cast_range_expression range;
  match variant_ node with
  | IdentifierList =>
      hi ← range_hi range; lo ← range_lo range;
      Ret (create_node (λ i, ast_input_declaration_range i (identifiers node) hi lo) g)
  | Identifier _ =>
      hi ← range_hi range; lo ← range_lo range;
      Ret (create_node (λ i, ast_input_declaration_range i [id] hi lo) g)
  | _ => Abort
  end.

Definition create_output_declaration (id : ast_id) (g : verilog_ast_graph)
    : outcome (ast_id * verilog_ast_graph) :=
  node ← checked_node g id;
  match variant_ node with
  | IdentifierList =>
      Ret (create_node (λ i, ast_output_declaration i (identifiers node)) g)
  | Identifier _ =>
      Ret (create_node (λ i, ast_output_declaration i [id]) g)
  | _ => Abort
  end.

Definition create_output_declaration_range (id rid : ast_id) (g : verilog_ast_graph)
    : outcome (ast_id * verilog_ast_graph) :=
  node ← checked_node g id;
  range ← checked_node g rid;
  range ← static_cast_range_expression range;
  match variant_ node with
  | IdentifierList =>
      hi ← range_hi range; lo ← range_lo range;
      Ret (create_node (λ i, ast_output_declaration_range i (identifiers node) hi lo) g)
  | Identifier _ =>
      hi ← range_hi range; lo ← range_lo range;
      Ret (create_node (λ i, ast_output_declaration_range i [id] hi lo) g)
  | _ => Abort
  end.

Definition create_wire_declaration (id : ast_id) (g : verilog_ast_graph)
    : outcome (ast_id * verilog_ast_graph) :=
  node ← checked_node g id;
  match variant_ node with
  | IdentifierList =>
      Ret (create_node (λ i, ast_wire_declaration i (identifiers node)) g)
  | Identifier _ =>
      Ret (create_node (λ i, ast_wire_declaration i [id]) g)
  | _ => Abort
  end.

Definition create_wire_declaration_range (id rid : ast_id) (g : verilog_ast_graph)
    : outcome (ast_id * verilog_ast_graph) :=
  node ← checked_node g id;
  range ← checked_node g rid;
  range ← static_cast_range_expression range;
  match variant_ node with
  | IdentifierList =>
      hi ← range_hi range; lo ← range_lo range;
      Ret (create_node (λ i, ast_wire_declaration_range i (identifiers node) hi lo) g)
  | Identifier _ =>
      hi ← range_hi range; lo ← range_lo range;
      Ret (create_node (λ i, ast_wire_declaration_range i [id] hi lo) g)
  | _ => Abort
  end.

Definition create_module_instantiation (module_name instance_name : ast_id)
    (port_assignment : list (ast_id * ast_id)) (parameters : list ast_id)
    (g : verilog_ast_graph) :=
  create_node (λ i, ast_module_instantiation i module_name instance_name
                      port_assignment parameters) g.

Definition create_parameter_declaration (identifier expr : ast_id) (g : verilog_ast_graph) :=
  create_node (λ i, ast_parameter_declaration i identifier expr) g.

Definition create_assignment (signal expr : ast_id) (g : verilog_ast_graph) :=
  create_node (λ i, ast_assignment i signal expr) g.

Definition create_module (module_name : string) (args decls : list ast_id)
    (g : verilog_ast_graph) :=
  create_node (λ i, ast_module i module_name args decls) g.

(** ** Sequences of create calls *)

(** One call of a public [create_*] member, with its arguments. *)
Inductive op : Type :=
  | Create_numeral (numeral : string)
  | Create_identifier (identifier : string)
  | Create_arithmetic_identifier (identifier : string)
  | Create_identifier_list (identifier_list : list ast_id)
  | Create_range_expression (hi lo : ast_id)
  | Create_array_select (array index : ast_id)
  | Create_sum_expression (term expr : ast_id)
  | Create_negative_sign (expr : ast_id)
  | Create_mul_expression (term expr : ast_id)
  | Create_not_expression (expr : ast_id)
  | Create_and_expression (term expr : ast_id)
  | Create_or_expression (term expr : ast_id)
  | Create_xor_expression (term expr : ast_id)
  | Create_system_function (fun_ : ast_id) (args : list ast_id)
  | Create_input_declaration (id : ast_id)
  | Create_input_declaration_range (id rid : ast_id)
  | Create_output_declaration (id : ast_id)
  | Create_output_declaration_range (id rid : ast_id)
  | Create_wire_declaration (id : ast_id)
  | Create_wire_declaration_range (id rid : ast_id)
  | Create_module_instantiation (module_name instance_name : ast_id)
      (port_assignment : list (ast_id * ast_id)) (parameters : list ast_id)
  | Create_parameter_declaration (identifier expr : ast_id)
  | Create_assignment (signal expr : ast_id)
  | Create_module (module_name : string) (args decls : list ast_id).

Definition exec (o : op) (g : verilog_ast_graph) : outcome (ast_id * verilog_ast_graph) :=
  match o with
  | Create_numeral s => Ret (create_numeral s g)
  | Create_identifier s => Ret (create_identifier s g)
  | Create_arithmetic_identifier s => Ret (create_arithmetic_identifier s g)
  | Create_identifier_list l => Ret (create_identifier_list l g)
  | Create_range_expression hi lo => Ret (create_range_expression hi lo g)
  | Create_array_select a i => Ret (create_array_select a i g)
  | Create_sum_expression t e => Ret (create_sum_expression t e g)
  | Create_negative_sign e => Ret (create_negative_sign e g)
  | Create_mul_expression t e => Ret (create_mul_expression t e g)
  | Create_not_expression e => Ret (create_not_expression e g)
  | Create_and_expression t e => Ret (create_and_expression t e g)
  | Create_or_expression t e => Ret (create_or_expression t e g)
  | Create_xor_expression t e => Ret (create_xor_expression t e g)
  | Create_system_function f args => Ret (create_system_function f args g)
  | Create_input_declaration i => create_input_declaration i g
  | Create_input_declaration_range i r => create_input_declaration_range i r g
  | Create_output_declaration i => create_output_declaration i g
  | Create_output_declaration_range i r => create_output_declaration_range i r g
  | Create_wire_declaration i => create_wire_declaration i g
  | Create_wire_declaration_range i r => create_wire_declaration_range i r g
  | Create_module_instantiation m n p q => Ret (create_module_instantiation m n p q g)
  | Create_parameter_declaration i e => Ret (create_parameter_declaration i e g)
  | Create_assignment s e => Ret (create_assignment s e g)
  | Create_module m a d => Ret (create_module m a d g)
  end.

(** The calls of [ops] in order, from the graph [g]: the handles they return
    and the graph they leave. *)
Fixpoint run (ops : list op) (g : verilog_ast_graph)
    : outcome (list ast_id * verilog_ast_graph) :=
  match ops with
  | [] => Ret ([], g)
  | o :: rest =>
      '(h, g1) ← exec o g;
      '(hs, g2) ← run rest g1;
      Ret (h :: hs, g2)
  end.

(** A graph a caller can hold: the result of create calls on a fresh one. *)
Definition reachable (g : verilog_ast_graph) : Prop :=
  ∃ ops hs, run ops empty_graph = Ret (hs, g).

(** The handles a call passes that become children of the node it creates.
    The adapters take the children from the node their first argument names. *)
Definition child_arguments (o : op) : list ast_id :=
  match o with
  | Create_identifier_list l => l
  | Create_range_expression hi lo => [hi; lo]
  | Create_array_select a i => [a; i]
  | Create_sum_expression t e | Create_mul_expression t e | Create_and_expression t e
  | Create_or_expression t e | Create_xor_expression t e => [t; e]
  | Create_negative_sign e | Create_not_expression e => [e]
  | Create_system_function _ args => args
  | Create_input_declaration i | Create_output_declaration i | Create_wire_declaration i
  | Create_input_declaration_range i _ | Create_output_declaration_range i _
  | Create_wire_declaration_range i _ => [i]
  | Create_parameter_declaration i e => [i; e]
  | Create_assignment s e => [s; e]
  | _ => []
  end.

(** Every call of [ops], started from [g], passes as children only handles
    of nodes that are in the graph at the time of the call. *)
Fixpoint children_valid (ops : list op) (g : verilog_ast_graph) : Prop :=
  match ops with
  | [] => True
  | o :: rest =>
      Forall (λ c, c < size g) (child_arguments o) ∧
      match exec o g with
      | Ret (_, g1) => children_valid rest g1
      | _ => True
      end
  end.

(** ** Shapes and invariants *)

(** The number of children each constructor gives to a node. *)
Definition shape_ok (n : ast_node) : Prop :=
  match variant_ n with
  | Numeral _ | Identifier _ | ArithmeticIdentifier _
  | ModuleInstantiation _ _ _ _ | Module _ _ _ => children_ n = []
  | ArraySelect | RangeExpression | ParameterDeclaration | Assignment =>
      ∃ a b, children_ n = [a; b]
  | Sign _ => ∃ a, children_ n = [a]
  | Expression EXPR_NOT => ∃ a, children_ n = [a]
  | Expression _ => ∃ a b, children_ n = [a; b]
  | _ => True
  end.

(** What a call that appends [n] does to the two intern tables. *)
Definition tables_after (g g' : verilog_ast_graph) (h : ast_id) (n : ast_node) : Prop :=
  match variant_ n with
  | Identifier s =>
      n = ast_identifier h s ∧ identifier_hash_ g !! s = None ∧
      identifier_hash_ g' = <[s := h]> (identifier_hash_ g) ∧
      arithmetic_identifier_hash_ g' = arithmetic_identifier_hash_ g
  | ArithmeticIdentifier s =>
      n = ast_arithmetic_identifier h s ∧ arithmetic_identifier_hash_ g !! s = None ∧
      identifier_hash_ g' = identifier_hash_ g ∧
      arithmetic_identifier_hash_ g' = <[s := h]> (arithmetic_identifier_hash_ g)
  | _ =>
      identifier_hash_ g' = identifier_hash_ g ∧
      arithmetic_identifier_hash_ g' = arithmetic_identifier_hash_ g
  end.

(** The call [o] on [g] appended the node [n] and returned [h]. *)
Definition appends (o : op) (g : verilog_ast_graph) (h : ast_id)
    (g' : verilog_ast_graph) (n : ast_node) : Prop :=
  nodes_ g' = nodes_ g ++ [n] ∧
  h = to_uint32 (size g) ∧ id_ n = h ∧ shape_ok n ∧
  (∀ c, c ∈ children_ n →
     c ∈ child_arguments o ∨ ∃ i old, nodes_ g !! i = Some old ∧ c ∈ children_ old) ∧
  tables_after g g' h n.

(** The call [o] on [g] found its text in an intern table. *)
Definition hits (o : op) (g : verilog_ast_graph) (h : ast_id) : Prop :=
  (∃ s, o = Create_identifier s ∧ identifier_hash_ g !! s = Some h) ∨
  (∃ s, o = Create_arithmetic_identifier s ∧ arithmetic_identifier_hash_ g !! s = Some h).

(** What holds of every graph that create calls build, whatever its size. *)
Record wf (g : verilog_ast_graph) : Prop := mk_wf {
  wf_ids : ∀ i n, nodes_ g !! i = Some n → id_ n = to_uint32 (N.of_nat i);
  wf_shapes : ∀ i n, nodes_ g !! i = Some n → shape_ok n;
  wf_identifier : ∀ s h, identifier_hash_ g !! s = Some h →
    ∃ i, nodes_ g !! i = Some (ast_identifier h s);
  wf_arithmetic : ∀ s h, arithmetic_identifier_hash_ g !! s = Some h →
    ∃ i, nodes_ g !! i = Some (ast_arithmetic_identifier h s)
}.

(** Children come before their parent, for the nodes a 32-bit handle can name. *)
Definition acyclic (g : verilog_ast_graph) : Prop :=
  ∀ i n c, nodes_ g !! i = Some n → N.of_nat i < uint32_max →
    c ∈ children_ n → c < id_ n.

(** ** The two flavours of identifier *)

(** [arith = false] stands for the Identifier flavour and [arith = true] for
    the ArithmeticIdentifier one, to state their properties once. *)
Definition intern_call (arith : bool)
    : string → verilog_ast_graph → ast_id * verilog_ast_graph :=
  if arith then create_arithmetic_identifier else create_identifier.

Definition intern_op (arith : bool) : string → op :=
  if arith then Create_arithmetic_identifier else Create_identifier.

Definition intern_table (arith : bool) (g : verilog_ast_graph) : gmap string ast_id :=
  if arith then arithmetic_identifier_hash_ g else identifier_hash_ g.

Definition intern_node (arith : bool) : ast_id → string → ast_node :=
  if arith then ast_arithmetic_identifier else ast_identifier.

(** ** The three declaration classes *)

(** One name per declaration class, to state the adapters' properties once. *)
Inductive decl_kind : Type :=
  | Input_decl
  | Output_decl
  | Wire_decl.

Definition decl_variant (k : decl_kind) (r : decl_range) : ast_variant :=
  match k with
  | Input_decl => InputDeclaration r
  | Output_decl => OutputDeclaration r
  | Wire_decl => WireDeclaration r
  end.

Definition create_declaration (k : decl_kind)
    : ast_id → verilog_ast_graph → outcome (ast_id * verilog_ast_graph) :=
  match k with
  | Input_decl => create_input_declaration
  | Output_decl => create_output_declaration
  | Wire_decl => create_wire_declaration
  end.

Definition create_declaration_range (k : decl_kind)
    : ast_id → ast_id → verilog_ast_graph → outcome (ast_id * verilog_ast_graph) :=
  match k with
  | Input_decl => create_input_declaration_range
  | Output_decl => create_output_declaration_range
  | Wire_decl => create_wire_declaration_range
  end.

(** The identifier vector an adapter derives from the node [n] that its
    first argument [id] names. *)
Definition normalized (id : ast_id) (n : ast_node) : option (list ast_id) :=
  match variant_ n with
  | IdentifierList => Some (identifiers n)
  | Identifier _ => Some [id]
  | _ => None
  end.

(** The call with outcome [o] on the graph [g] appended the node [d] and
    returned the handle [d] reports as its own; as long as a 32-bit handle
    was free, that handle named no node before the call and names [d] after
    it. *)
Definition returns_new (o : outcome (ast_id * verilog_ast_graph))
    (g : verilog_ast_graph) (d : ast_node) : Prop :=
  ∃ g', o = Ret (id d, g') ∧
        nodes_ g' = nodes_ g ++ [d] ∧
        id d = to_uint32 (size g) ∧
        (size g < uint32_max →
           node_ptr g (id d) = Throw_out_of_range ∧ node_ptr g' (id d) = Ret d).

(** ** Concrete runs *)

(** The handles and the graph of a run on a fresh graph. *)
Definition handles_of (ops : list op) : list ast_id :=
  match run ops empty_graph with Ret (hs, _) => hs | _ => [] end.

Definition graph_of (ops : list op) : verilog_ast_graph :=
  match run ops empty_graph with Ret (_, g) => g | _ => empty_graph end.

(** Scenario S1 of the specification: identifier sharing. *)
Definition sharing : list op :=
  [Create_identifier "x"; Create_identifier "x"; Create_identifier "y"].

(** Scenario S2: a range-bounded wire. *)
Definition ranged_wire : list op :=
  [Create_numeral "7"; Create_numeral "0"; Create_range_expression 0 1;
   Create_identifier "w"].

(** Scenario S5: the body of a module. *)
Definition module_body : list op :=
  [Create_identifier "a"; Create_identifier "b"; Create_and_expression 0 1;
   Create_assignment 0 2; Create_module "m" [0; 1] [3]].

(** The same text twice. *)
Definition twice : list op := [Create_identifier "x"; Create_identifier "x"].

(** A list of two identifiers, then the list itself. *)
Definition listed : list op :=
  [Create_identifier "a"; Create_identifier "b"; Create_identifier_list [0; 1]].

(** An assignment in the place of the range: handle 3 names [a = b]. *)
Definition assigned : list op :=
  [Create_identifier "w"; Create_identifier "a"; Create_identifier "b";
   Create_assignment 1 2].

(** ** Members of [ast_expression] *)

Module ast_expression.

(** [assert( children_.size() >= 1 ); return children_[0];] *)
Definition left (n : ast_node) : outcome ast_id :=
  if 1 <=? N.of_nat (length (children_ n)) then child_at n 0 else Assert_fail.

(** [assert( children_.size() >= 2 ); return children_[1];] *)
Definition right (n : ast_node) : outcome ast_id :=
  if 2 <=? N.of_nat (length (children_ n)) then child_at n 1 else Assert_fail.

(** [kind_]; [None] on a node of another class. *)
Definition kind (n : ast_node) : option expr_kind :=
  match variant_ n with
  | Expression k => Some k
  | _ => None
  end.

End ast_expression.

(** The kind and the operands that a call of one of the six expression
    members hands to the constructor of [ast_expression]: the left operand,
    and the right one unless the call is [create_not_expression]. *)
Definition expression_call (o : op) : option (expr_kind * ast_id * option ast_id) :=
  match o with
  | Create_sum_expression term expr => Some (EXPR_ADD, term, Some expr)
  | Create_mul_expression term expr => Some (EXPR_MUL, term, Some expr)
  | Create_not_expression expr => Some (EXPR_NOT, expr, None)
  | Create_and_expression term expr => Some (EXPR_AND, term, Some expr)
  | Create_or_expression term expr => Some (EXPR_OR, term, Some expr)
  | Create_xor_expression term expr => Some (EXPR_XOR, term, Some expr)
  | _ => None
  end.

(** ** Counting calls and nodes *)

(** The class and text of an identifier node of either flavour. *)
Definition intern_variant (arith : bool) (s : string) : ast_variant :=
  if arith then ArithmeticIdentifier s else Identifier s.

(** The calls that go through an intern table. *)
Definition is_intern_op (o : op) : bool :=
  match o with
  | Create_identifier _ | Create_arithmetic_identifier _ => true
  | _ => false
  end.

(** The text of a call of the given flavour. *)
Definition intern_text (arith : bool) (o : op) : option string :=
  match o with
  | Create_identifier s => if arith then None else Some s
  | Create_arithmetic_identifier s => if arith then Some s else None
  | _ => None
  end.

(** The texts the calls of one flavour pass, in order, with repetitions. *)
Definition intern_texts (arith : bool) (ops : list op) : list string :=
  omap (intern_text arith) ops.

(** The number of calls that do not go through an intern table. *)
Definition plain_calls (ops : list op) : nat :=
  length (filter (λ o, is_intern_op o = false) ops).

(** The number of children the classes of fixed shape have; [None] for the
    classes that take a vector of children. *)
Definition arity (v : ast_variant) : option nat :=
  match v with
  | Numeral _ | Identifier _ | ArithmeticIdentifier _
  | ModuleInstantiation _ _ _ _ | Module _ _ _ => Some 0%nat
  | Sign _ | Expression EXPR_NOT => Some 1%nat
  | ArraySelect | RangeExpression | ParameterDeclaration | Assignment
  | Expression _ => Some 2%nat
  | IdentifierList | SystemFunction _
  | InputDeclaration _ | OutputDeclaration _ | WireDeclaration _ => None
  end.

(** Every node of an identifier class is bound in the table of its flavour. *)
Definition identifiers_bound (g : verilog_ast_graph) : Prop :=
  ∀ arith i n s, nodes_ g !! i = Some n → variant_ n = intern_variant arith s →
    intern_table arith g !! s = Some (id_ n).

(** The node the call [o] returns the handle of: an identifier node of the
    call's flavour and text, or a node of another class. *)
Definition made_for (o : op) (n : ast_node) : Prop :=
  match o with
  | Create_identifier s => variant_ n = Identifier s
  | Create_arithmetic_identifier s => variant_ n = ArithmeticIdentifier s
  | _ => ∀ arith s, variant_ n ≠ intern_variant arith s
  end.

(** ** Handles stored outside the children *)

(** The handles a node keeps in the data members of its class. *)
Definition payload_handles (v : ast_variant) : list ast_id :=
  match v with
  | SystemFunction f => [f]
  | InputDeclaration (Word_level hi lo) | OutputDeclaration (Word_level hi lo)
  | WireDeclaration (Word_level hi lo) => [hi; lo]
  | ModuleInstantiation m i ports params =>
      m :: i :: flat_map (λ p, [p.1; p.2]) ports ++ params
  | Module _ args decls => args ++ decls
  | _ => []
  end.

(** The handles a call passes that go to the data members of the node. The
    two-argument adapters take [hi] and [lo] from the node [rid] names. *)
Definition payload_arguments (o : op) : list ast_id :=
  match o with
  | Create_system_function f _ => [f]
  | Create_module_instantiation m i ports params =>
      m :: i :: flat_map (λ p, [p.1; p.2]) ports ++ params
  | Create_module _ args decls => args ++ decls
  | _ => []
  end.

(** Every call of [ops], started from [g], passes only handles of nodes that
    are in the graph at the time of the call. *)
Fixpoint handles_valid (ops : list op) (g : verilog_ast_graph) : Prop :=
  match ops with
  | [] => True
  | o :: rest =>
      Forall (λ c, c < size g) (child_arguments o ++ payload_arguments o) ∧
      match exec o g with
      | Ret (_, g1) => handles_valid rest g1
      | _ => True
      end
  end.

(** Every handle a node stores, as a child or in a data member, is below the
    node's own, for the nodes a 32-bit handle can name. *)
Definition stored_precede (g : verilog_ast_graph) : Prop :=
  ∀ i n c, nodes_ g !! i = Some n → N.of_nat i < uint32_max →
    c ∈ children_ n ++ payload_handles (variant_ n) → c < id_ n.

(** A system function applied to a numeral. *)
Definition called : list op :=
  [Create_identifier "$clog2"; Create_numeral "3"; Create_system_function 0 [1]].

(** A run with numerals, both flavours of identifier and an expression. *)
Definition mixed : list op :=
  [Create_identifier "x"; Create_numeral "1"; Create_arithmetic_identifier "x";
   Create_identifier "x"; Create_numeral "1"; Create_sum_expression 0 1;
   Create_arithmetic_identifier "n"; Create_identifier "x"].

(** A negation above an exclusive or, scenario S4. *)
Definition negated : list op :=
  [Create_identifier "x"; Create_identifier "y"; Create_xor_expression 0 1;
   Create_not_expression 2].

(** * Proofs *)

(** ** What one call does *)

Ltac outcome_inv :=
  unfold mbind, outcome_bind, mret, outcome_ret in *;
  repeat (case_match; simplify_eq/=).

Lemma emplace_fresh k v (m : gmap string ast_id) :
  m !! k = None → emplace k v m = <[k := v]> m.
Proof. intros H. unfold emplace. by rewrite H. Qed.

Ltac solve_appends :=
  right; eexists; unfold appends, tables_after; simpl; split_and!;
  [ reflexivity | reflexivity | reflexivity | unfold shape_ok; simpl; eauto
  | intros c Hc; first [ by left | right; eauto ] | .. ]; try done.

Lemma exec_cases o g h g' :
  exec o g = Ret (h, g') →
  (hits o g h ∧ g' = g) ∨ ∃ n, appends o g h g' n.
Proof.
  intros E. destruct o; simpl in E;
    try (injection E as <- <-; solve_appends; fail).
  - unfold create_identifier in E. destruct (identifier_hash_ g !! identifier) eqn:L.
    + injection E as <- <-. left. split; [left; eauto | done].
    + simpl in E. injection E as <- <-. solve_appends. by rewrite emplace_fresh.
  - unfold create_arithmetic_identifier in E.
    destruct (arithmetic_identifier_hash_ g !! identifier) eqn:L.
    + injection E as <- <-. left. split; [right; eauto | done].
    + simpl in E. injection E as <- <-. solve_appends. by rewrite emplace_fresh.
  - unfold create_input_declaration, checked_node in E. outcome_inv; solve_appends.
  - unfold create_input_declaration_range, checked_node,
      static_cast_range_expression in E. outcome_inv; solve_appends.
  - unfold create_output_declaration, checked_node in E. outcome_inv; solve_appends.
  - unfold create_output_declaration_range, checked_node,
      static_cast_range_expression in E. outcome_inv; solve_appends.
  - unfold create_wire_declaration, checked_node in E. outcome_inv; solve_appends.
  - unfold create_wire_declaration_range, checked_node,
      static_cast_range_expression in E. outcome_inv; solve_appends.
Qed.

(** ** Invariants of a run *)

Lemma wf_empty : wf empty_graph.
Proof. split; simpl; intros *; by rewrite ?lookup_nil, ?lookup_empty. Qed.

Lemma size_snoc g g' n : nodes_ g' = nodes_ g ++ [n] → size g' = size g + 1.
Proof. unfold size. intros ->. rewrite length_app. simpl. lia. Qed.

Lemma exec_size o g h g' : exec o g = Ret (h, g') → size g ≤ size g'.
Proof.
  intros [[_ ->] | (n & Hn & _)]%exec_cases; [done |].
  rewrite (size_snoc _ _ _ Hn). lia.
Qed.

Lemma exec_wf o g h g' : wf g → exec o g = Ret (h, g') → wf g'.
Proof.
  intros W [[_ ->] | (n & Hn & -> & Hid & Hsh & _ & Ht)]%exec_cases; [done |].
  destruct W as [Wi Ws Wa Wb]. unfold tables_after in Ht.
  assert (Hlast : nodes_ g' !! length (nodes_ g) = Some n).
  { rewrite Hn. by apply list_lookup_middle. }
  split.
  - intros i m. rewrite Hn. intros [[_ L] | [-> ->]]%lookup_snoc_Some; eauto.
  - intros i m. rewrite Hn. intros [[_ L] | [-> ->]]%lookup_snoc_Some; eauto.
  - intros s h L.
    assert (Hold : identifier_hash_ g !! s = Some h →
                   ∃ i, nodes_ g' !! i = Some (ast_identifier h s)).
    { intros [i Hi]%Wa. exists i. rewrite Hn. by apply lookup_app_l_Some. }
    destruct (variant_ n) eqn:V; try (destruct Ht as [Ht _]; rewrite Ht in L; eauto; fail).
    + destruct Ht as (-> & _ & Ht & _). rewrite Ht in L.
      destruct (decide (identifier = s)) as [-> | Hne].
      * rewrite lookup_insert_eq in L. injection L as <-. eauto.
      * rewrite lookup_insert_ne in L by done. eauto.
    + destruct Ht as (_ & _ & Ht & _). rewrite Ht in L. eauto.
  - intros s h L.
    assert (Hold : arithmetic_identifier_hash_ g !! s = Some h →
                   ∃ i, nodes_ g' !! i = Some (ast_arithmetic_identifier h s)).
    { intros [i Hi]%Wb. exists i. rewrite Hn. by apply lookup_app_l_Some. }
    destruct (variant_ n) eqn:V; try (destruct Ht as [_ Ht]; rewrite Ht in L; eauto; fail).
    + destruct Ht as (_ & _ & _ & Ht). rewrite Ht in L. eauto.
    + destruct Ht as (-> & _ & _ & Ht). rewrite Ht in L.
      destruct (decide (identifier = s)) as [-> | Hne].
      * rewrite lookup_insert_eq in L. injection L as <-. eauto.
      * rewrite lookup_insert_ne in L by done. eauto.
Qed.

(** Induction along a run: a property that every call preserves holds of
    the final graph when it holds of the first one. *)
Lemma run_preserves (P : verilog_ast_graph → Prop) :
  (∀ o g h g', P g → exec o g = Ret (h, g') → P g') →
  ∀ ops g hs g', P g → run ops g = Ret (hs, g') → P g'.
Proof.
  intros Hstep. induction ops as [| o ops IH]; intros g hs g' HP R; simpl in R.
  - by injection R as <- <-.
  - destruct (exec o g) as [[h g1] | | | |] eqn:E; try done. simpl in R.
    destruct (run ops g1) as [[hs1 g2] | | | |] eqn:R1; try done. simpl in R.
    injection R as <- <-. eauto.
Qed.

Lemma run_wf ops g hs g' : wf g → run ops g = Ret (hs, g') → wf g'.
Proof. apply run_preserves. intros o g0 h g1. apply exec_wf. Qed.

Lemma reachable_wf g : reachable g → wf g.
Proof. intros (ops & hs & R). eapply run_wf; [apply wf_empty | done]. Qed.

Lemma run_size ops g hs g' : run ops g = Ret (hs, g') → size g ≤ size g'.
Proof.
  revert g hs g'. induction ops as [| o ops IH]; intros g hs g' R; simpl in R.
  - by injection R as <- <-.
  - destruct (exec o g) as [[h g1] | | | |] eqn:E; try done. simpl in R.
    destruct (run ops g1) as [[hs1 g2] | | | |] eqn:R1; try done. simpl in R.
    injection R as <- <-. apply exec_size in E. apply IH in R1. lia.
Qed.

(** ** Handles below [2^32] *)

Lemma to_uint32_small n : n < uint32_max → to_uint32 n = n.
Proof. intros H. unfold to_uint32. by apply N.mod_small. Qed.

Lemma to_uint32_lt n : to_uint32 n < uint32_max.
Proof. unfold to_uint32. by apply N.mod_lt. Qed.

(** The narrowing in [create_node]: with [2^32] nodes in the graph the next
    index is 0 again. *)
Lemma create_node_wraps mk g : size g = uint32_max → (create_node mk g).1 = 0.
Proof. intros H. unfold create_node. simpl. by rewrite H. Qed.

Lemma lookup_size g i n : nodes_ g !! i = Some n → N.of_nat i < size g.
Proof. intros H%lookup_lt_Some. unfold size. lia. Qed.

(** Below [2^32] the node stored at an index carries that index. *)
Lemma wf_id_index g i n :
  wf g → nodes_ g !! i = Some n → N.of_nat i < uint32_max → id_ n = N.of_nat i.
Proof. intros W L B. rewrite (wf_ids g W i n L). by apply to_uint32_small. Qed.

Lemma node_ptr_Ret g h n : node_ptr g h = Ret n ↔ nodes_ g !! N.to_nat h = Some n.
Proof. unfold node_ptr. destruct (nodes_ g !! N.to_nat h); split; congruence. Qed.

Lemma node_ptr_in_range g h : h < size g → ∃ n, node_ptr g h = Ret n.
Proof.
  intros H. unfold node_ptr, size in *.
  destruct (lookup_lt_is_Some_2 (nodes_ g) (N.to_nat h)) as [n ->]; [lia | eauto].
Qed.

Lemma node_ptr_out_of_range g h : size g ≤ h → node_ptr g h = Throw_out_of_range.
Proof.
  intros H. unfold node_ptr, size in *.
  rewrite (lookup_ge_None_2 (nodes_ g) (N.to_nat h)); [done | lia].
Qed.

(** A run appends at most one node per call. *)
Lemma run_size_calls ops g hs g' :
  run ops g = Ret (hs, g') → size g' ≤ size g + N.of_nat (length ops).
Proof.
  revert g hs g'. induction ops as [| o ops IH]; intros g hs g' R; simpl in R.
  - injection R as <- <-. simpl. lia.
  - destruct (exec o g) as [[h g1] | | | |] eqn:E; try done. simpl in R.
    destruct (run ops g1) as [[hs1 g2] | | | |] eqn:R1; try done. simpl in R.
    injection R as <- <-. apply IH in R1. simpl length.
    apply exec_cases in E as [[_ ->] | (n & Hn & _)]; [lia |].
    rewrite (size_snoc _ _ _ Hn) in R1. lia.
Qed.

(** ** Children precede their parent *)

Lemma exec_acyclic o g h g' :
  wf g → acyclic g → Forall (λ c, c < size g) (child_arguments o) →
  exec o g = Ret (h, g') → acyclic g'.
Proof.
  intros W A F [[_ ->] | (n & Hn & -> & Hid & _ & Hc & _)]%exec_cases; [done |].
  intros i m c. rewrite Hn. intros [[_ L] | [-> ->]]%lookup_snoc_Some B Hin.
  - eauto.
  - fold (size g) in B. rewrite Hid, to_uint32_small by done.
    destruct (Hc c Hin) as [Harg | (j & old & Lo & Ho)].
    + rewrite Forall_forall in F. auto.
    + pose proof (lookup_size _ _ _ Lo) as Hj.
      assert (c < id_ old) by (eapply A; [done | lia | done]).
      rewrite (wf_id_index g j old) in * by (done || lia). lia.
Qed.

Lemma run_acyclic ops g hs g' :
  wf g → acyclic g → children_valid ops g → run ops g = Ret (hs, g') → acyclic g'.
Proof.
  revert g hs g'. induction ops as [| o ops IH]; intros g hs g' W A V R; simpl in R.
  - by injection R as <- <-.
  - destruct V as [F V].
    destruct (exec o g) as [[h g1] | | | |] eqn:E; try done. simpl in R.
    destruct (run ops g1) as [[hs1 g2] | | | |] eqn:R1; try done. simpl in R.
    injection R as <- <-.
    eapply IH; [by eapply exec_wf | by eapply exec_acyclic | done | done].
Qed.

(** ** The intern tables *)

Lemma intern_call_hit arith s g h :
  intern_table arith g !! s = Some h → intern_call arith s g = (h, g).
Proof.
  destruct arith; simpl; intros L;
    unfold create_arithmetic_identifier, create_identifier; by rewrite L.
Qed.

Lemma intern_call_miss arith s g :
  intern_table arith g !! s = None →
  ∃ g', intern_call arith s g = (to_uint32 (size g), g') ∧
        nodes_ g' = nodes_ g ++ [intern_node arith (to_uint32 (size g)) s] ∧
        intern_table arith g' !! s = Some (to_uint32 (size g)).
Proof.
  destruct arith; simpl; intros L;
    unfold create_arithmetic_identifier, create_identifier; rewrite L; simpl;
    (eexists; split_and!; [done | done |]); simpl;
    rewrite emplace_fresh by done; apply lookup_insert_eq.
Qed.

Lemma exec_intern_op arith s g : exec (intern_op arith s) g = Ret (intern_call arith s g).
Proof. by destruct arith. Qed.

(** A binding of an intern table is never changed. *)
Lemma exec_table_keeps arith s x o g h g' :
  exec o g = Ret (h, g') →
  intern_table arith g !! s = Some x → intern_table arith g' !! s = Some x.
Proof.
  intros [[_ ->] | (n & _ & _ & _ & _ & _ & Ht)]%exec_cases L; [done |].
  unfold tables_after in Ht.
  destruct arith, (variant_ n) eqn:V; simpl in *;
    try (destruct Ht as [Ha Hb]; congruence);
    destruct Ht as (_ & Hfresh & Ha & Hb); try congruence.
  - rewrite Hb, lookup_insert_ne; [done | congruence].
  - rewrite Ha, lookup_insert_ne; [done | congruence].
Qed.

Lemma run_table_keeps arith s x ops g hs g' :
  run ops g = Ret (hs, g') →
  intern_table arith g !! s = Some x → intern_table arith g' !! s = Some x.
Proof.
  intros R L. revert R. apply (run_preserves (λ g, intern_table arith g !! s = Some x)); [| done].
  intros o g0 h g1 L0 E. by eapply exec_table_keeps.
Qed.

(** Only a call with the text [s] of the same flavour binds [s]. *)
Lemma exec_table_fresh arith s o g h g' :
  exec o g = Ret (h, g') → o ≠ intern_op arith s →
  intern_table arith g !! s = None → intern_table arith g' !! s = None.
Proof.
  intros E Hne L. destruct o; simpl in E;
    try (injection E as <- <-; by destruct arith).
  - unfold create_identifier in E. destruct (identifier_hash_ g !! identifier) eqn:Li.
    + by injection E as <- <-.
    + simpl in E. injection E as <- <-. destruct arith; simpl in *; [done |].
      rewrite emplace_fresh by done. rewrite lookup_insert_ne; [done | congruence].
  - unfold create_arithmetic_identifier in E.
    destruct (arithmetic_identifier_hash_ g !! identifier) eqn:Li.
    + by injection E as <- <-.
    + simpl in E. injection E as <- <-. destruct arith; simpl in *; [| done].
      rewrite emplace_fresh by done. rewrite lookup_insert_ne; [done | congruence].
  - unfold create_input_declaration, checked_node in E. outcome_inv; by destruct arith.
  - unfold create_input_declaration_range, checked_node,
      static_cast_range_expression in E. outcome_inv; by destruct arith.
  - unfold create_output_declaration, checked_node in E. outcome_inv; by destruct arith.
  - unfold create_output_declaration_range, checked_node,
      static_cast_range_expression in E. outcome_inv; by destruct arith.
  - unfold create_wire_declaration, checked_node in E. outcome_inv; by destruct arith.
  - unfold create_wire_declaration_range, checked_node,
      static_cast_range_expression in E. outcome_inv; by destruct arith.
Qed.

Lemma run_table_fresh arith s ops g hs g' :
  run ops g = Ret (hs, g') → intern_op arith s ∉ ops →
  intern_table arith g !! s = None → intern_table arith g' !! s = None.
Proof.
  revert g hs g'. induction ops as [| o ops IH]; intros g hs g' R Hn L; simpl in R.
  - by injection R as <- <-.
  - destruct (exec o g) as [[h g1] | | | |] eqn:E; try done. simpl in R.
    destruct (run ops g1) as [[hs1 g2] | | | |] eqn:R1; try done. simpl in R.
    injection R as <- <-. apply not_elem_of_cons in Hn as [Hne Hn].
    eapply IH; [done | done |]. eapply exec_table_fresh; [done | congruence | done].
Qed.

(** Within [2^32] nodes a bound handle names the identifier node of its
    flavour and text. *)
Lemma table_names_node arith s h g :
  wf g → size g ≤ uint32_max → intern_table arith g !! s = Some h →
  nodes_ g !! N.to_nat h = Some (intern_node arith h s).
Proof.
  intros W B L.
  assert (∃ i, nodes_ g !! i = Some (intern_node arith h s)) as [i Li].
  { destruct arith; simpl in *; [by apply (wf_arithmetic g W) | by apply (wf_identifier g W)]. }
  pose proof (lookup_size _ _ _ Li) as Hi.
  assert (h = N.of_nat i) as ->.
  { rewrite <- (wf_id_index g i _ W Li) by lia. by destruct arith. }
  by rewrite Nat2N.id.
Qed.

(** ** The handle-or-error encoding *)

Module ast_or_error_facts.
  Import ast_or_error.

Lemma mask_ones : 0x7FFFFFFF = N.ones 31.
Proof. reflexivity. Qed.

Lemma ast_of_ast a : ast (of_ast a) = a mod 2 ^ 31.
Proof.
  unfold ast, of_ast. simpl ast_.
  rewrite N.land_lor_distr_l.
  replace (N.land 0x80000000 0x7FFFFFFF) with 0 by reflexivity.
  by rewrite N.lor_0_r, mask_ones, N.land_ones.
Qed.

Lemma valid_of_ast a : valid (of_ast a) = true.
Proof.
  unfold valid, of_ast. simpl ast_.
  rewrite N.land_lor_distr_l, N.land_diag.
  apply negb_true_iff, N.eqb_neq. intros [_ H]%N.lor_eq_0_iff. discriminate.
Qed.

Lemma valid_default : valid default = false.
Proof. reflexivity. Qed.

Lemma ast_default : ast default = 0.
Proof. reflexivity. Qed.

(** Among the [uint32_t] arguments only [0] and [0x80000000] have a zero
    payload, and both give the value of handle [0]. *)
Lemma of_ast_zero_payload a :
  a < uint32_max → ast (of_ast a) = 0 → of_ast a = of_ast 0.
Proof.
  rewrite ast_of_ast. unfold uint32_max. intros B M.
  pose proof (N.div_mod a (2 ^ 31) ltac:(done)) as D. rewrite M, N.add_0_r in D.
  assert (a / 2 ^ 31 < 2) as Q by (apply N.Div0.div_lt_upper_bound; lia).
  assert (a / 2 ^ 31 = 0 ∨ a / 2 ^ 31 = 1) as [E | E] by lia;
    rewrite E in D; by subst a.
Qed.

End ast_or_error_facts.

(** ** The adapters *)

Lemma checked_node_Ret g h n : node_ptr g h = Ret n → checked_node g h = Ret n.
Proof.
  intros L%node_ptr_Ret. unfold checked_node. rewrite L.
  apply lookup_lt_Some in L.
  destruct (N.ltb_spec h (size g)) as [| Hge]; [done |]. unfold size in Hge. lia.
Qed.

Lemma create_declaration_eq k id g n :
  node_ptr g id = Ret n →
  create_declaration k id g =
    match normalized id n with
    | Some ids => Ret (create_node (λ i, mk_ast_node i ids (decl_variant k Bit_level)) g)
    | None => Abort
    end.
Proof.
  intros L%checked_node_Ret. unfold normalized.
  destruct k; simpl;
    unfold create_input_declaration, create_output_declaration, create_wire_declaration;
    rewrite L; simpl; by destruct (variant_ n).
Qed.

Lemma create_declaration_range_eq k id rid g n r :
  node_ptr g id = Ret n → node_ptr g rid = Ret r →
  create_declaration_range k id rid g =
    (range ← static_cast_range_expression r;
     match normalized id n with
     | Some ids =>
         hi ← range_hi range; lo ← range_lo range;
         Ret (create_node (λ i, mk_ast_node i ids (decl_variant k (Word_level hi lo))) g)
     | None => Abort
     end).
Proof.
  intros L%checked_node_Ret R%checked_node_Ret. unfold normalized.
  destruct k; simpl;
    unfold create_input_declaration_range, create_output_declaration_range,
           create_wire_declaration_range;
    rewrite L, R; simpl;
    destruct (static_cast_range_expression r); simpl; try done;
    by destruct (variant_ n).
Qed.

Lemma static_cast_range_expression_Ret r :
  variant_ r = RangeExpression → static_cast_range_expression r = Ret r.
Proof. unfold static_cast_range_expression. by intros ->. Qed.

Lemma static_cast_range_expression_Undefined r :
  variant_ r ≠ RangeExpression → static_cast_range_expression r = Undefined.
Proof. unfold static_cast_range_expression. by destruct (variant_ r). Qed.

Lemma create_node_returns_new mk g :
  (∀ i, id_ (mk i) = i) →
  returns_new (Ret (create_node mk g)) g (mk (to_uint32 (size g))).
Proof.
  intros Hid. unfold returns_new, create_node, id. rewrite Hid.
  eexists; split_and!; [done | done | done |].
  intros B. rewrite to_uint32_small by done. split.
  - by apply node_ptr_out_of_range.
  - apply node_ptr_Ret. simpl. unfold size. rewrite Nat2N.id. by apply list_lookup_middle.
Qed.

Lemma normalized_None src n :
  normalized src n = None ↔
  variant_ n ≠ IdentifierList ∧ ∀ s, variant_ n ≠ Identifier s.
Proof.
  unfold normalized. destruct (variant_ n); split; try done;
    intros [H1 H2]; try by destruct H1. by destruct (H2 identifier).
Qed.

(** ** Traversal of the children *)

Lemma visited_children n : visited n = children_ n.
Proof.
  unfold visited, foreach_child.
  assert (H : ∀ l acc : list ast_id, foldl (λ acc child, acc ++ [child]) acc l = acc ++ l).
  { induction l as [| c l IH]; intros acc; simpl; [by rewrite app_nil_r |].
    by rewrite IH, <- app_assoc. }
  apply H.
Qed.

Lemma visits_children n : visits n = length (children_ n).
Proof.
  unfold visits, foreach_child.
  assert (H : ∀ (l : list ast_id) k, foldl (λ acc _, S acc) k l = (k + length l)%nat).
  { induction l as [| c l IH]; intros k; simpl; [lia |]. rewrite IH. lia. }
  apply (H (children_ n) 0%nat).
Qed.

Lemma no_children_leaf n :
  children_ n = [] →
  is_leaf n = true ∧ visits n = 0%nat ∧ visited n = [] ∧
  ∀ (St : Type) (fn : ast_id → St → St) (s : St), foreach_child fn n s = s.
Proof.
  intros H. rewrite visits_children, visited_children.
  unfold is_leaf, foreach_child. by rewrite H.
Qed.

(** The non-const traversal of a node without children changes nothing. *)
Lemma no_children_mut n (St : Type) (fn : ast_id → St → ast_id * St) (s : St) :
  children_ n = [] → foreach_child_mut fn n s = (n, s).
Proof. destruct n as [i cs v]. simpl. intros ->. reflexivity. Qed.

(** ** Scenarios of the specification *)

Example namespaces_differ :
  handles_of [Create_identifier "n"; Create_arithmetic_identifier "n"] = [0; 1] ∧
  node_ptr (graph_of [Create_identifier "n"; Create_arithmetic_identifier "n"]) 1
    = Ret (ast_arithmetic_identifier 1 "n").
Proof. split; reflexivity. Qed.

Example numerals_not_interned :
  handles_of [Create_numeral "0"; Create_numeral "0"; Create_numeral "0"] = [0; 1; 2].
Proof. reflexivity. Qed.

Example expression_shape :
  nodes_ (graph_of [Create_identifier "x"; Create_identifier "y";
                    Create_xor_expression 0 1; Create_not_expression 2])
  = [ast_identifier 0 "x"; ast_identifier 1 "y";
     ast_expression2 2 EXPR_XOR 0 1; ast_expression1 3 EXPR_NOT 2].
Proof. reflexivity. Qed.

Example sharing_handles : handles_of sharing = [0; 0; 1] ∧ size (graph_of sharing) = 2.
Proof. split; reflexivity. Qed.

Example ranged_wire_declared :
  create_wire_declaration_range 3 2 (graph_of ranged_wire)
  = Ret (4, mk_graph (nodes_ (graph_of ranged_wire) ++ [ast_wire_declaration_range 4 [3] 0 1])
                     (identifier_hash_ (graph_of ranged_wire)) ∅).
Proof. reflexivity. Qed.

(** * Properties of the arena *)

(** C1 (interning). Take any sequence of create calls on a fresh graph in
    which no call [create_identifier(s)] occurs. The next call
    [create_identifier(s)] returns a handle [h] and makes the graph one node
    larger; after any further calls, [create_identifier(s)] returns [h] again
    and leaves the graph as it is, so its size grows by 0; and as long as a
    32-bit handle is free, [create_arithmetic_identifier(s)] returns a handle
    different from [h]. The same holds with the two flavours exchanged
    ([arith = true]). *)
Theorem interning (arith : bool) (s : string) (pre : list op)
    (hs0 : list ast_id) (g0 : verilog_ast_graph) :
  run pre empty_graph = Ret (hs0, g0) →
  intern_op arith s ∉ pre →
  ∃ h g1,
    intern_call arith s g0 = (h, g1) ∧ size g1 = size g0 + 1 ∧
    ∀ mid hs g2, run mid g1 = Ret (hs, g2) →
      intern_call arith s g2 = (h, g2) ∧
      (size g2 < uint32_max → (intern_call (negb arith) s g2).1 ≠ h).
Proof.
  intros R0 Hfirst.
  assert (W0 : wf g0) by (eapply run_wf; [apply wf_empty | done]).
  assert (L0 : intern_table arith g0 !! s = None).
  { eapply run_table_fresh; [done | done |]. by destruct arith. }
  destruct (intern_call_miss arith s g0 L0) as (g1 & C1 & N1 & T1).
  exists (to_uint32 (size g0)), g1. split_and!; [done | by eapply size_snoc |].
  intros mid hs g2 R2.
  assert (W2 : wf g2).
  { eapply run_wf; [| done]. eapply exec_wf; [done |]. by rewrite exec_intern_op, C1. }
  pose proof (run_table_keeps arith s _ _ _ _ _ R2 T1) as T2.
  split; [by apply intern_call_hit |]. intros B.
  pose proof (table_names_node arith s _ g2 W2 ltac:(lia) T2) as Nh.
  destruct (intern_table (negb arith) g2 !! s) as [h' |] eqn:T'.
  - rewrite (intern_call_hit _ _ _ _ T'). simpl. intros ->.
    pose proof (table_names_node (negb arith) s _ g2 W2 ltac:(lia) T') as Nh'.
    rewrite Nh in Nh'. by destruct arith.
  - destruct (intern_call_miss _ _ _ T') as (g3 & -> & _). simpl.
    rewrite (to_uint32_small (size g2)) by done.
    revert Nh. generalize (to_uint32 (size g0)).
    intros h Nh%lookup_lt_Some. unfold size. lia.
Qed.

Lemma interning_witness :
  ∃ h g1,
    create_identifier "x" (graph_of [Create_arithmetic_identifier "x"; Create_numeral "0"])
      = (h, g1) ∧
    size g1 = size (graph_of [Create_arithmetic_identifier "x"; Create_numeral "0"]) + 1 ∧
    ∀ mid hs g2, run mid g1 = Ret (hs, g2) →
      create_identifier "x" g2 = (h, g2) ∧
      (size g2 < uint32_max → (create_arithmetic_identifier "x" g2).1 ≠ h).
Proof.
  apply (interning false "x" [Create_arithmetic_identifier "x"; Create_numeral "0"] [0; 1]).
  - reflexivity.
  - intros H. apply elem_of_cons in H as [H | H]; [discriminate H |].
    apply elem_of_cons in H as [H | H]; [discriminate H |].
    by apply elem_of_nil in H.
Defined.

(** C2 (declaration normalization). Each of the one-argument adapters,
    called with a handle [src] that names an IdentifierList node, appends a
    bit-level declaration node of its class whose identifier vector is the
    list's children, and returns its handle; called with a handle that names
    an Identifier node, the identifier vector of the new node is [[src]]. *)
Theorem declaration_normalization (k : decl_kind) (g : verilog_ast_graph)
    (src : ast_id) (n : ast_node) :
  node_ptr g src = Ret n →
  variant_ n = IdentifierList ∨ (∃ s, variant_ n = Identifier s) →
  ∃ d,
    returns_new (create_declaration k src g) g d ∧
    variant_ d = decl_variant k Bit_level ∧
    (variant_ n = IdentifierList → identifiers d = children_ n) ∧
    (∀ s, variant_ n = Identifier s → identifiers d = [src]).
Proof.
  intros L V. rewrite (create_declaration_eq k src g n L).
  assert (∃ ids, normalized src n = Some ids ∧
                 (variant_ n = IdentifierList → ids = children_ n) ∧
                 (∀ s, variant_ n = Identifier s → ids = [src])) as (ids & -> & H1 & H2).
  { unfold normalized. destruct V as [-> | [s ->]]; eexists; split_and!; done. }
  eexists. split_and!; [by apply create_node_returns_new | done | done | done].
Qed.

Lemma declaration_normalization_witness :
  ∃ d,
    returns_new (create_declaration Output_decl 2 (graph_of listed)) (graph_of listed) d ∧
    variant_ d = decl_variant Output_decl Bit_level ∧
    (variant_ (ast_identifier_list 2 [0; 1]) = IdentifierList →
       identifiers d = children_ (ast_identifier_list 2 [0; 1])) ∧
    (∀ s, variant_ (ast_identifier_list 2 [0; 1]) = Identifier s → identifiers d = [2]).
Proof.
  apply (declaration_normalization Output_decl (graph_of listed) 2 (ast_identifier_list 2 [0; 1])).
  - reflexivity.
  - left. reflexivity.
Defined.



(** C4 (wrong variant at an adapter), in the form that holds of the code.
    When the handle [src] names a node that is neither an Identifier nor an
    IdentifierList, every one-argument adapter aborts, and so does every
    two-argument adapter when [rid] names a RangeExpression. The class of the
    node at [rid] is not checked: when [rid] names a node of another class,
    the cast to [ast_range_expression*] is undefined behaviour, whatever
    [src] names, and no abort is guaranteed. *)
Theorem adapter_wrong_variant (k : decl_kind) (g : verilog_ast_graph)
    (src : ast_id) (n : ast_node) :
  node_ptr g src = Ret n →
  (variant_ n ≠ IdentifierList → (∀ s, variant_ n ≠ Identifier s) →
     terminates_fatally (create_declaration k src g) ∧
     ∀ rid r, node_ptr g rid = Ret r → variant_ r = RangeExpression →
       terminates_fatally (create_declaration_range k src rid g)) ∧
  (∀ rid r, node_ptr g rid = Ret r → variant_ r ≠ RangeExpression →
     create_declaration_range k src rid g = Undefined ∧
     ¬ terminates_fatally (create_declaration_range k src rid g)).
Proof.
  intros L. split.
  - intros V1 V2. assert (Hn : normalized src n = None) by by apply normalized_None.
    split.
    + by rewrite (create_declaration_eq k src g n L), Hn.
    + intros rid r Lr Vr. rewrite (create_declaration_range_eq k src rid g n r L Lr).
      rewrite (static_cast_range_expression_Ret r Vr). simpl. by rewrite Hn.
  - intros rid r Lr Vr. rewrite (create_declaration_range_eq k src rid g n r L Lr).
    rewrite (static_cast_range_expression_Undefined r Vr). by split.
Qed.

Lemma adapter_wrong_variant_witness :
  (variant_ (ast_numeral 0 "7") ≠ IdentifierList →
   (∀ s, variant_ (ast_numeral 0 "7") ≠ Identifier s) →
     terminates_fatally (create_declaration Input_decl 0 (graph_of ranged_wire)) ∧
     ∀ rid r, node_ptr (graph_of ranged_wire) rid = Ret r →
       variant_ r = RangeExpression →
       terminates_fatally (create_declaration_range Input_decl 0 rid (graph_of ranged_wire))) ∧
  (∀ rid r, node_ptr (graph_of ranged_wire) rid = Ret r →
     variant_ r ≠ RangeExpression →
     create_declaration_range Input_decl 0 rid (graph_of ranged_wire) = Undefined ∧
     ¬ terminates_fatally (create_declaration_range Input_decl 0 rid (graph_of ranged_wire))).
Proof.
  apply (adapter_wrong_variant Input_decl (graph_of ranged_wire) 0 (ast_numeral 0 "7")).
  reflexivity.
Defined.

(** C4 as the specification words it does not hold: handle 3 names an
    Assignment, not a RangeExpression, and [create_wire_declaration(0, 3)]
    casts it unchecked: the behaviour is undefined, the call is not an
    abort of the process. *)
Lemma range_class_not_checked :
  node_ptr (graph_of assigned) 0 = Ret (ast_identifier 0 "w") ∧
  node_ptr (graph_of assigned) 3 = Ret (ast_assignment 3 1 2) ∧
  variant_ (ast_assignment 3 1 2) ≠ RangeExpression ∧
  create_wire_declaration_range 0 3 (graph_of assigned) = Undefined ∧
  ¬ terminates_fatally (create_wire_declaration_range 0 3 (graph_of assigned)).
Proof. split_and!; [reflexivity | reflexivity | discriminate | reflexivity | discriminate]. Qed.

(** C5 (dense handles), in the form that holds of the code. After any
    sequence of successful create calls on a fresh graph, the graph holds at
    most one node per call, and every handle [i] below its size names exactly
    one node, which reports [i] as its own handle. *)
Theorem dense_ids (ops : list op) (hs : list ast_id) (g : verilog_ast_graph) :
  run ops empty_graph = Ret (hs, g) →
  size g ≤ N.of_nat (length ops) ∧
  ∀ i : ast_id, i < uint32_max → i < size g →
    ∃ n, node_ptr g i = Ret n ∧ id n = i ∧ ∀ m, node_ptr g i = Ret m → m = n.
Proof.
  intros R. split.
  - apply run_size_calls in R. by rewrite N.add_0_l in R.
  - intros i B Hi. destruct (node_ptr_in_range g i Hi) as [n Hn].
    exists n. split_and!; [done | | congruence].
    assert (W : wf g) by (eapply run_wf; [apply wf_empty | done]).
    apply node_ptr_Ret in Hn. unfold id.
    rewrite (wf_id_index g _ n W Hn); rewrite N2Nat.id; done.
Qed.

Lemma dense_ids_witness :
  size (graph_of sharing) ≤ N.of_nat (length sharing) ∧
  ∀ i : ast_id, i < uint32_max → i < size (graph_of sharing) →
    ∃ n, node_ptr (graph_of sharing) i = Ret n ∧ id n = i ∧
         ∀ m, node_ptr (graph_of sharing) i = Ret m → m = n.
Proof. apply (dense_ids sharing [0; 0; 1]). reflexivity. Defined.

(** C5 as the specification words it does not hold: after the two successful create calls
    of [twice] the graph has one node, and handle 1 names none. *)
Lemma dense_ids_per_call_fails :
  run twice empty_graph = Ret ([0; 0], graph_of twice) ∧
  length twice = 2%nat ∧
  size (graph_of twice) = 1 ∧
  node_ptr (graph_of twice) 1 = Throw_out_of_range ∧
  ¬ (∀ ops hs g, run ops empty_graph = Ret (hs, g) →
       ∀ i : ast_id, i < N.of_nat (length ops) → ∃ n, node_ptr g i = Ret n ∧ id n = i).
Proof.
  split_and!; try reflexivity.
  intros H. destruct (H twice [0; 0] (graph_of twice) eq_refl 1 eq_refl) as (n & Hn & _).
  discriminate Hn.
Qed.

(** C6 (children precede their parent). When every call passes as children
    only handles of nodes the graph holds at the time of the call, then in
    the graph the calls build every child handle of every node that a handle
    names is strictly less than the node's own handle. *)
Theorem children_precede_parent (ops : list op) (hs : list ast_id)
    (g : verilog_ast_graph) (h : ast_id) (n : ast_node) (c : ast_id) :
  run ops empty_graph = Ret (hs, g) →
  children_valid ops empty_graph →
  h < uint32_max →
  node_ptr g h = Ret n →
  c ∈ children_ n →
  c < id n.
Proof.
  intros R V B Hn Hc.
  assert (A : acyclic g).
  { eapply run_acyclic; [apply wf_empty | | done | done].
    intros i m c' L. by destruct i. }
  apply node_ptr_Ret in Hn. eapply A; [done | | done]. by rewrite N2Nat.id.
Qed.

Lemma children_precede_parent_witness : 0 < id (ast_assignment 3 0 2).
Proof.
  apply (children_precede_parent module_body [0; 1; 2; 3; 4] (graph_of module_body) 3).
  - reflexivity.
  - simpl. repeat (split; [repeat constructor |]). exact I.
  - reflexivity.
  - reflexivity.
  - simpl. apply list_elem_of_here.
Defined.

(** C7 (handle-or-error encoding). For every handle [h] below [2^31] the
    value constructed from [h] is valid and its payload is [h]; the
    default-constructed value is not valid. *)
Theorem handle_or_error_encoding (h : ast_id) :
  h < 2 ^ 31 →
  ast_or_error.valid (ast_or_error.of_ast h) = true ∧
  ast_or_error.ast (ast_or_error.of_ast h) = h ∧
  ast_or_error.valid ast_or_error.default = false.
Proof.
  intros B. split_and!.
  - apply ast_or_error_facts.valid_of_ast.
  - rewrite ast_or_error_facts.ast_of_ast. by apply N.mod_small.
  - reflexivity.
Qed.

Lemma handle_or_error_encoding_witness :
  ast_or_error.valid (ast_or_error.of_ast 5) = true ∧
  ast_or_error.ast (ast_or_error.of_ast 5) = 5 ∧
  ast_or_error.valid ast_or_error.default = false.
Proof. apply (handle_or_error_encoding 5). reflexivity. Defined.

(** C8 (dereference), in the form that holds of the code. [node_ptr]
    returns the stored node for every handle below the size of the graph;
    for every other handle it returns no value and throws
    [std::out_of_range], which is not an abort of the process. *)
Theorem node_ptr_contract (g : verilog_ast_graph) (h : ast_id) :
  (h < size g → ∃ n, nodes_ g !! N.to_nat h = Some n ∧ node_ptr g h = Ret n) ∧
  (size g ≤ h →
     node_ptr g h = Throw_out_of_range ∧ ¬ terminates_fatally (node_ptr g h)).
Proof.
  split.
  - intros [n Hn]%node_ptr_in_range. exists n. split; [by apply node_ptr_Ret | done].
  - intros H%node_ptr_out_of_range. by rewrite H.
Qed.

Lemma node_ptr_contract_witness :
  (1 < size (graph_of sharing) →
     ∃ n, nodes_ (graph_of sharing) !! N.to_nat 1 = Some n ∧
          node_ptr (graph_of sharing) 1 = Ret n) ∧
  (size (graph_of sharing) ≤ 2 →
     node_ptr (graph_of sharing) 2 = Throw_out_of_range ∧
     ¬ terminates_fatally (node_ptr (graph_of sharing) 2)).
Proof.
  split.
  - apply (node_ptr_contract (graph_of sharing) 1).
  - apply (node_ptr_contract (graph_of sharing) 2).
Defined.

(** C8 as the specification words it does not hold: handle 2 is out of range in a graph of
    two nodes, and [node_ptr] throws instead of aborting the process. *)
Lemma node_ptr_throws :
  size (graph_of sharing) = 2 ∧
  node_ptr (graph_of sharing) 2 = Throw_out_of_range ∧
  ¬ terminates_fatally (node_ptr (graph_of sharing) 2).
Proof. split_and!; [reflexivity | reflexivity | discriminate]. Qed.

(** C9 (payload handles are not children). In a graph built by create
    calls every Module node and every ModuleInstantiation node has an empty
    children list: [is_leaf] is true and [foreach_child] runs its callback
    zero times, whatever args, decls, port assignments and parameters the
    node was created with. The node a [create_system_function(fun, args)]
    call appends is traversed through exactly [args]; [fun] plays no part. *)
Theorem payload_not_children (g : verilog_ast_graph) (h : ast_id) (n : ast_node) :
  reachable g →
  node_ptr g h = Ret n →
  ((∃ name args decls, variant_ n = Module name args decls) ∨
   (∃ m i ports params, variant_ n = ModuleInstantiation m i ports params) →
   children_ n = [] ∧ is_leaf n = true ∧ visits n = 0%nat ∧ visited n = [] ∧
   (∀ (St : Type) (fn : ast_id → St → St) (s : St), foreach_child fn n s = s) ∧
   (∀ (St : Type) (fn : ast_id → St → ast_id * St) (s : St),
      foreach_child_mut fn n s = (n, s))) ∧
  (∀ name args decls,
     let d := ast_module (to_uint32 (size g)) name args decls in
     nodes_ (create_module name args decls g).2 = nodes_ g ++ [d] ∧
     is_leaf d = true ∧ visits d = 0%nat) ∧
  (∀ m i ports params,
     let d := ast_module_instantiation (to_uint32 (size g)) m i ports params in
     nodes_ (create_module_instantiation m i ports params g).2 = nodes_ g ++ [d] ∧
     is_leaf d = true ∧ visits d = 0%nat) ∧
  (∀ f args,
     let d := ast_system_function (to_uint32 (size g)) f args in
     nodes_ (create_system_function f args g).2 = nodes_ g ++ [d] ∧
     visited d = args ∧ visits d = length args).
Proof.
  intros Rg L. split_and!.
  - intros V. apply reachable_wf in Rg. apply node_ptr_Ret in L.
    pose proof (wf_shapes g Rg _ _ L) as Hs. unfold shape_ok in Hs.
    assert (children_ n = []) as Hc.
    { destruct V as [(? & ? & ? & V) | (? & ? & ? & ? & V)]; by rewrite V in Hs. }
    destruct (no_children_leaf n Hc) as (H1 & H2 & H3 & H4).
    split_and!; try done. intros St fn s. by apply no_children_mut.
  - intros name args decls d. split_and!; done.
  - intros m i ports params d. split_and!; done.
  - intros f args d. by rewrite visited_children, visits_children.
Qed.

Lemma payload_not_children_witness :
  is_leaf (ast_module 4 "m" [0; 1] [3]) = true ∧
  visits (ast_module 4 "m" [0; 1] [3]) = 0%nat.
Proof.
  destruct (payload_not_children (graph_of module_body) 4 (ast_module 4 "m" [0; 1] [3]))
    as [H _].
  - exists module_body, [0; 1; 2; 3; 4]. reflexivity.
  - reflexivity.
  - destruct H as (_ & Hl & Hv & _); [left; by exists "m", [0; 1], [3] |].
    split; [exact Hl | exact Hv].
Defined.

(** C10 (payload of the error value). [ast()] of the default-constructed
    value is 0, as is [ast()] of the valid value constructed from handle 0;
    [valid()] tells the two apart, and among all values the constructors
    produce with payload 0 it is false exactly on the default one. *)
Theorem error_payload_is_zero :
  ast_or_error.ast ast_or_error.default = 0 ∧
  ast_or_error.ast (ast_or_error.of_ast 0) = 0 ∧
  ast_or_error.valid ast_or_error.default = false ∧
  ast_or_error.valid (ast_or_error.of_ast 0) = true ∧
  ∀ e, ast_or_error.constructed e → ast_or_error.ast e = 0 →
    (e = ast_or_error.default ∨ e = ast_or_error.of_ast 0) ∧
    (ast_or_error.valid e = false ↔ e = ast_or_error.default) ∧
    (ast_or_error.valid e = true ↔ e = ast_or_error.of_ast 0).
Proof.
  split_and!; try reflexivity.
  intros e [-> | (a & B & ->)] Z.
  - split_and!; [by left | done | done].
  - rewrite (ast_or_error_facts.of_ast_zero_payload a B Z). split_and!; [by right | done | done].
Qed.

Lemma error_payload_is_zero_witness :
  ast_or_error.valid (ast_or_error.of_ast 0x80000000) = true ↔
  ast_or_error.of_ast 0x80000000 = ast_or_error.of_ast 0.
Proof.
  destruct error_payload_is_zero as (_ & _ & _ & _ & H).
  destruct (H (ast_or_error.of_ast 0x80000000)) as (_ & _ & Hv).
  - right. exists 0x80000000. split; reflexivity.
  - reflexivity.
  - exact Hv.
Defined.

(** * Further properties of the arena *)

(** ** Runs only append *)

Lemma exec_prefix o g h g' : exec o g = Ret (h, g') → nodes_ g `prefix_of` nodes_ g'.
Proof.
  intros [[_ ->] | (n & Hn & _)]%exec_cases; [done |].
  rewrite Hn. by apply prefix_app_r.
Qed.

Lemma run_prefix ops g hs g' : run ops g = Ret (hs, g') → nodes_ g `prefix_of` nodes_ g'.
Proof.
  apply (run_preserves (λ g1, nodes_ g `prefix_of` nodes_ g1)); [| done].
  intros o g0 h g1 P E. etrans; [done | by eapply exec_prefix].
Qed.

Lemma prefix_node_ptr g g' h n :
  nodes_ g `prefix_of` nodes_ g' → node_ptr g h = Ret n → node_ptr g' h = Ret n.
Proof.
  intros [k Hk] L%node_ptr_Ret. apply node_ptr_Ret. rewrite Hk.
  by apply lookup_app_l_Some.
Qed.

Lemma prefix_size g g' : nodes_ g `prefix_of` nodes_ g' → size g ≤ size g'.
Proof. intros H%prefix_length. unfold size. lia. Qed.

(** A run splits at each of its calls. *)
Lemma run_cons_inv o ops g hs g' :
  run (o :: ops) g = Ret (hs, g') →
  ∃ h g1 hs1, exec o g = Ret (h, g1) ∧ run ops g1 = Ret (hs1, g') ∧ hs = h :: hs1.
Proof.
  simpl. intros R.
  destruct (exec o g) as [[h g1] | | | |] eqn:E; try done. simpl in R.
  destruct (run ops g1) as [[hs1 g2] | | | |] eqn:R1; try done. simpl in R.
  injection R as <- <-. eauto 10.
Qed.

Lemma run_length ops g hs g' : run ops g = Ret (hs, g') → length hs = length ops.
Proof.
  revert g hs. induction ops as [| o ops IH]; intros g hs R.
  - by injection R as <- <-.
  - apply run_cons_inv in R as (h & g1 & hs1 & _ & R & ->). simpl. f_equal. eauto.
Qed.

(** The call at position [i] of a run: the graph it starts from, the graph
    it leaves, and the run of the calls after it. *)
Lemma run_at ops g hs g' i o :
  run ops g = Ret (hs, g') → ops !! i = Some o →
  ∃ h g1 g2 hs2,
    hs !! i = Some h ∧ nodes_ g `prefix_of` nodes_ g1 ∧
    (∀ arith s x, intern_table arith g !! s = Some x → intern_table arith g1 !! s = Some x) ∧
    (wf g → wf g1) ∧
    exec o g1 = Ret (h, g2) ∧
    run (drop (S i) ops) g2 = Ret (hs2, g') ∧ hs2 = drop (S i) hs.
Proof.
  revert g hs i. induction ops as [| o' ops IH]; intros g hs i R L; [done |].
  apply run_cons_inv in R as (h & g1 & hs1 & E & R & ->).
  destruct i as [| i]; simpl in L.
  - injection L as ->. exists h, g, g1, hs1. split_and!; try done.
  - destruct (IH g1 hs1 i R L) as (h' & ga & gb & hs2 & H1 & H2 & H3 & H4 & H5 & H6 & H7).
    exists h', ga, gb, hs2. split_and!; try done.
    + etrans; [by eapply exec_prefix | done].
    + intros arith s x T. apply H3. by eapply exec_table_keeps.
    + intros W. apply H4. by eapply exec_wf.
Qed.

(** X1 (append only). A run never removes or changes a node and never
    changes a binding of an intern table: the nodes of the graph it starts
    from are a prefix of the nodes it leaves, every handle that named a node
    names the same node afterwards, and both tables only grow. *)
Theorem append_only (ops : list op) (g : verilog_ast_graph)
    (hs : list ast_id) (g' : verilog_ast_graph) :
  run ops g = Ret (hs, g') →
  nodes_ g `prefix_of` nodes_ g' ∧
  (∀ h n, node_ptr g h = Ret n → node_ptr g' h = Ret n) ∧
  identifier_hash_ g ⊆ identifier_hash_ g' ∧
  arithmetic_identifier_hash_ g ⊆ arithmetic_identifier_hash_ g'.
Proof.
  intros R. pose proof (run_prefix _ _ _ _ R) as P. split_and!.
  - done.
  - intros h n. by apply prefix_node_ptr.
  - apply map_subseteq_spec. intros s x. apply (run_table_keeps false s x _ _ _ _ R).
  - apply map_subseteq_spec. intros s x. apply (run_table_keeps true s x _ _ _ _ R).
Qed.

Lemma append_only_witness :
  nodes_ (graph_of sharing) `prefix_of` nodes_ (graph_of (sharing ++ negated)) ∧
  (∀ h n, node_ptr (graph_of sharing) h = Ret n →
          node_ptr (graph_of (sharing ++ negated)) h = Ret n) ∧
  identifier_hash_ (graph_of sharing) ⊆ identifier_hash_ (graph_of (sharing ++ negated)) ∧
  arithmetic_identifier_hash_ (graph_of sharing)
    ⊆ arithmetic_identifier_hash_ (graph_of (sharing ++ negated)).
Proof. apply (append_only negated (graph_of sharing) [0; 1; 2; 3]). reflexivity. Defined.

(** ** Returned handles *)

(** The handle a call returns names, in the graph the call leaves, a node
    that reports this handle and is of the class the call is for. *)
Lemma exec_names o g h g' :
  wf g → size g' ≤ uint32_max → exec o g = Ret (h, g') →
  ∃ n, nodes_ g' !! N.to_nat h = Some n ∧ id_ n = h ∧ made_for o n.
Proof.
  intros W B E. destruct (exec_cases _ _ _ _ E) as [[Hh ->] | (n & Hn & -> & Hid & _ & _ & Ht)].
  - destruct Hh as [(s & -> & T) | (s & -> & T)].
    + exists (ast_identifier h s). split_and!; [| done | done].
      by apply (table_names_node false).
    + exists (ast_arithmetic_identifier h s). split_and!; [| done | done].
      by apply (table_names_node true).
  - pose proof (size_snoc _ _ _ Hn) as Hs.
    exists n. rewrite to_uint32_small in * by lia. split_and!; [| done |].
    + rewrite Hn. unfold size. rewrite Nat2N.id. by apply list_lookup_middle.
    + clear Hid. unfold tables_after in Ht.
      destruct o; simpl in E;
        try (injection E as _ E; rewrite <- E in Hn; simpl in Hn;
             apply app_inv_head in Hn; injection Hn as <-; by intros []).
      * unfold create_identifier in E. destruct (identifier_hash_ g !! identifier); simpl in E.
        -- injection E as _ <-. apply (f_equal length) in Hn. rewrite length_app in Hn.
           simpl in Hn. lia.
        -- injection E as _ E. rewrite <- E in Hn. simpl in Hn.
           apply app_inv_head in Hn. by injection Hn as <-.
      * unfold create_arithmetic_identifier in E.
        destruct (arithmetic_identifier_hash_ g !! identifier); simpl in E.
        -- injection E as _ <-. apply (f_equal length) in Hn. rewrite length_app in Hn.
           simpl in Hn. lia.
        -- injection E as _ E. rewrite <- E in Hn. simpl in Hn.
           apply app_inv_head in Hn. by injection Hn as <-.
      * revert Hn. unfold create_input_declaration, checked_node in E. outcome_inv;
          intros Hn%app_inv_head; injection Hn as <-; by intros [].
      * revert Hn. unfold create_input_declaration_range, checked_node,
      static_cast_range_expression in E. outcome_inv;
          intros Hn%app_inv_head; injection Hn as <-; by intros [].
      * revert Hn. unfold create_output_declaration, checked_node in E. outcome_inv;
          intros Hn%app_inv_head; injection Hn as <-; by intros [].
      * revert Hn. unfold create_output_declaration_range, checked_node,
      static_cast_range_expression in E. outcome_inv;
          intros Hn%app_inv_head; injection Hn as <-; by intros [].
      * revert Hn. unfold create_wire_declaration, checked_node in E. outcome_inv;
          intros Hn%app_inv_head; injection Hn as <-; by intros [].
      * revert Hn. unfold create_wire_declaration_range, checked_node,
      static_cast_range_expression in E. outcome_inv;
          intros Hn%app_inv_head; injection Hn as <-; by intros [].
Qed.

Lemma intern_call_binds arith s g h g' :
  intern_call arith s g = (h, g') → intern_table arith g' !! s = Some h.
Proof.
  intros C. destruct (intern_table arith g !! s) as [x |] eqn:T.
  - rewrite (intern_call_hit _ _ _ _ T) in C. by injection C as <- <-.
  - destruct (intern_call_miss _ _ _ T) as (g1 & C1 & _ & T1).
    rewrite C1 in C. by injection C as <- <-.
Qed.

Lemma is_intern_op_spec o :
  is_intern_op o = true ↔ ∃ arith s, o = intern_op arith s.
Proof.
  split.
  - destruct o; try done; intros _; [by exists false, identifier | by exists true, identifier].
  - by intros ([] & s & ->).
Qed.

Lemma made_for_intern_node o arith h s :
  made_for o (intern_node arith h s) → o = intern_op arith s.
Proof.
  destruct o, arith; simpl; try congruence;
    intros H; try (by destruct (H true s)); by destruct (H false s).
Qed.

(** X2 (returned handles). In a run on a fresh graph that leaves at most
    [2^32] nodes, the handle each call returns names a node of the final
    graph that reports this handle: an Identifier (ArithmeticIdentifier)
    node with the call's text for the two identifier calls, a node of
    another class for every other call. *)
Theorem returned_handle_names_node (ops : list op) (hs : list ast_id)
    (g : verilog_ast_graph) (i : nat) (o : op) (h : ast_id) :
  run ops empty_graph = Ret (hs, g) →
  size g ≤ uint32_max →
  ops !! i = Some o →
  hs !! i = Some h →
  h < size g ∧ ∃ n, node_ptr g h = Ret n ∧ id n = h ∧ made_for o n.
Proof.
  intros R B Lo Lh.
  destruct (run_at _ _ _ _ _ _ R Lo) as (h' & g1 & g2 & hs2 & Lh' & _ & _ & W1 & E & R2 & _).
  assert (h' = h) as -> by congruence.
  pose proof (run_prefix _ _ _ _ R2) as P2.
  destruct (exec_names o g1 h g2 (W1 wf_empty)) as (n & Ln & Hid & Hm); [| done |].
  { pose proof (prefix_size _ _ P2). lia. }
  apply node_ptr_Ret in Ln. apply (prefix_node_ptr _ _ _ _ P2) in Ln.
  split; [| by exists n].
  apply node_ptr_Ret, lookup_lt_Some in Ln. unfold size. lia.
Qed.

Lemma returned_handle_names_node_witness :
  2 < size (graph_of mixed) ∧
  ∃ n, node_ptr (graph_of mixed) 2 = Ret n ∧ id n = 2 ∧
       made_for (Create_arithmetic_identifier "x") n.
Proof.
  apply (returned_handle_names_node mixed [0; 1; 2; 0; 3; 4; 5; 0] (graph_of mixed) 2);
    first [reflexivity | by vm_compute].
Defined.

(** X3 (sharing of handles). In a run on a fresh graph that leaves at most
    [2^32] nodes, two calls return the same handle exactly when they are
    the same identifier call: both [create_identifier] or both
    [create_arithmetic_identifier], with the same text. Every other pair of
    calls gets two different handles, also when the nodes are alike. *)
Theorem same_handle_iff_same_identifier (ops : list op) (hs : list ast_id)
    (g : verilog_ast_graph) (i j : nat) (oi oj : op) (hi hj : ast_id) :
  run ops empty_graph = Ret (hs, g) →
  size g ≤ uint32_max →
  (i < j)%nat →
  ops !! i = Some oi → ops !! j = Some oj →
  hs !! i = Some hi → hs !! j = Some hj →
  hi = hj ↔ is_intern_op oi = true ∧ oi = oj.
Proof.
  intros R B Hij Loi Loj Lhi Lhj.
  destruct (run_at _ _ _ _ _ _ R Loi)
    as (h1 & g1 & g2 & hs2 & Lh1 & _ & _ & W1 & Ei & R2 & ->).
  assert (h1 = hi) as -> by congruence.
  assert (Loj' : drop (S i) ops !! (j - S i)%nat = Some oj).
  { rewrite lookup_drop. by replace (S i + (j - S i))%nat with j by lia. }
  destruct (run_at _ _ _ _ _ _ R2 Loj')
    as (h2 & g3 & g4 & hs4 & Lh2 & P23 & T23 & W3 & Ej & R4 & _).
  rewrite lookup_drop in Lh2. replace (S i + (j - S i))%nat with j in Lh2 by lia.
  assert (h2 = hj) as -> by congruence.
  assert (W2 : wf g2) by (eapply exec_wf; [apply (W1 wf_empty) | done]).
  pose proof (prefix_size _ _ (run_prefix _ _ _ _ R4)) as S4.
  pose proof (exec_size _ _ _ _ Ej) as S3.
  pose proof (prefix_size _ _ P23) as S2.
  split.
  - intros <-.
    destruct (exec_names oi g1 hi g2 (W1 wf_empty)) as (n & Ln & _ & Hm); [lia | done |].
    destruct P23 as [k Hk].
    assert (Ln3 : nodes_ g3 !! N.to_nat hi = Some n).
    { rewrite Hk. by apply lookup_app_l_Some. }
    destruct (exec_cases _ _ _ _ Ej) as [[Hh ->] | (m & Hm4 & Hhi & _)].
    + assert (∃ arith s, oj = intern_op arith s ∧ intern_table arith g3 !! s = Some hi)
        as (arith & s & -> & T).
      { destruct Hh as [(s & -> & T) | (s & -> & T)];
          [by exists false, s | by exists true, s]. }
      pose proof (table_names_node arith s hi g3 (W3 W2) ltac:(lia) T) as Ln3'.
      rewrite Ln3 in Ln3'. injection Ln3' as ->.
      apply made_for_intern_node in Hm as ->. split; [| done].
      apply is_intern_op_spec. eauto.
    + pose proof (size_snoc _ _ _ Hm4) as S34.
      rewrite to_uint32_small in Hhi by lia.
      apply lookup_lt_Some in Ln3. unfold size in Hhi. lia.
  - intros [(arith & s & ->)%is_intern_op_spec <-].
    rewrite exec_intern_op in Ei, Ej. injection Ei as Ei. injection Ej as Ej.
    apply intern_call_binds in Ei. apply T23 in Ei.
    rewrite (intern_call_hit _ _ _ _ Ei) in Ej. by injection Ej as <- _.
Qed.

Lemma same_handle_iff_same_identifier_witness :
  (0 = 0) ↔ is_intern_op (Create_identifier "x") = true ∧
            Create_identifier "x" = Create_identifier "x".
Proof.
  apply (same_handle_iff_same_identifier mixed [0; 1; 2; 0; 3; 4; 5; 0] (graph_of mixed) 0 3);
    first [reflexivity | lia | by vm_compute].
Defined.

(** ** The intern tables and the identifier nodes *)

Lemma intern_node_variant arith h s : variant_ (intern_node arith h s) = intern_variant arith s.
Proof. by destruct arith. Qed.

Lemma exec_bound o g h g' :
  identifiers_bound g → exec o g = Ret (h, g') → identifiers_bound g'.
Proof.
  intros Hb E. destruct (exec_cases _ _ _ _ E) as [[_ ->] | (n & Hn & -> & Hid & _ & _ & Ht)];
    [done |].
  intros arith i m s. rewrite Hn. intros [[_ L] | [-> ->]]%lookup_snoc_Some V.
  - eapply exec_table_keeps; [done |]. by eapply Hb.
  - unfold tables_after in Ht. rewrite V in Ht. destruct arith; simpl in *.
    + destruct Ht as (_ & _ & _ & ->). rewrite Hid. apply lookup_insert_eq.
    + destruct Ht as (_ & _ & -> & _). rewrite Hid. apply lookup_insert_eq.
Qed.

Lemma reachable_bound g : reachable g → identifiers_bound g.
Proof.
  intros (ops & hs & R). revert R. apply (run_preserves identifiers_bound).
  - intros o g0 h g1. apply exec_bound.
  - intros arith i n s L. by destruct i.
Qed.

(** X4 (one node per text). In a graph built by create calls two handles
    that name Identifier nodes with the same text are equal, and so are two
    handles that name ArithmeticIdentifier nodes with the same text. *)
Theorem one_node_per_text (arith : bool) (g : verilog_ast_graph)
    (h1 h2 : ast_id) (n1 n2 : ast_node) (s : string) :
  reachable g →
  h1 < uint32_max → h2 < uint32_max →
  node_ptr g h1 = Ret n1 → node_ptr g h2 = Ret n2 →
  variant_ n1 = intern_variant arith s →
  variant_ n2 = intern_variant arith s →
  h1 = h2.
Proof.
  intros Rg B1 B2 L1%node_ptr_Ret L2%node_ptr_Ret V1 V2.
  pose proof (reachable_bound g Rg arith _ _ _ L1 V1) as T1.
  pose proof (reachable_bound g Rg arith _ _ _ L2 V2) as T2.
  pose proof (reachable_wf g Rg) as W.
  rewrite (wf_id_index g _ _ W L1) in T1 by by rewrite N2Nat.id.
  rewrite (wf_id_index g _ _ W L2) in T2 by by rewrite N2Nat.id.
  rewrite !N2Nat.id in *. congruence.
Qed.

Lemma one_node_per_text_witness : 0 = 0.
Proof.
  apply (one_node_per_text false (graph_of mixed) 0 0
           (ast_identifier 0 "x") (ast_identifier 0 "x") "x");
    try reflexivity.
  exists mixed, [0; 1; 2; 0; 3; 4; 5; 0]. reflexivity.
Defined.

(** X5 (a table mirrors its nodes). In a graph built by create calls with at
    most [2^32] nodes, a text is bound to the handle [h] in the table of a
    flavour exactly when [h] names a node of this flavour with this text:
    a lookup never gives a stale or foreign handle, and no identifier node is
    missing from its table. *)
Theorem table_mirrors_nodes (arith : bool) (g : verilog_ast_graph)
    (s : string) (h : ast_id) :
  reachable g →
  size g ≤ uint32_max →
  intern_table arith g !! s = Some h ↔
  ∃ n, node_ptr g h = Ret n ∧ variant_ n = intern_variant arith s.
Proof.
  intros Rg B. pose proof (reachable_wf g Rg) as W. split.
  - intros T. exists (intern_node arith h s). split; [| apply intern_node_variant].
    apply node_ptr_Ret. by apply table_names_node.
  - intros (n & L%node_ptr_Ret & V).
    rewrite (reachable_bound g Rg arith _ _ _ L V). f_equal.
    pose proof (lookup_size _ _ _ L) as Hs.
    rewrite (wf_id_index g _ _ W L) by lia. by rewrite N2Nat.id.
Qed.

Lemma table_mirrors_nodes_witness :
  arithmetic_identifier_hash_ (graph_of mixed) !! "n" = Some 5 ↔
  ∃ n, node_ptr (graph_of mixed) 5 = Ret n ∧ variant_ n = ArithmeticIdentifier "n".
Proof.
  apply (table_mirrors_nodes true (graph_of mixed) "n" 5).
  - exists mixed, [0; 1; 2; 0; 3; 4; 5; 0]. reflexivity.
  - by vm_compute.
Defined.

Lemma intern_text_spec arith o s : intern_text arith o = Some s ↔ o = intern_op arith s.
Proof. destruct o, arith; simpl; split; congruence. Qed.

Lemma run_table_bound arith s ops g hs g' :
  run ops g = Ret (hs, g') →
  is_Some (intern_table arith g' !! s) ↔
  is_Some (intern_table arith g !! s) ∨ s ∈ intern_texts arith ops.
Proof.
  revert g hs. induction ops as [| o ops IH]; intros g hs R.
  - injection R as <- <-. unfold intern_texts. simpl. split; [by left |].
    intros [H | H]; [done | by apply elem_of_nil in H].
  - apply run_cons_inv in R as (h & g1 & hs1 & E & R & ->).
    rewrite (IH _ _ R). unfold intern_texts. simpl.
    destruct (intern_text arith o) as [t |] eqn:Ht.
    + apply intern_text_spec in Ht as ->. rewrite exec_intern_op in E. injection E as E.
      rewrite elem_of_cons. destruct (decide (s = t)) as [-> | Hne].
      * apply intern_call_binds in E. rewrite E. split; intros _; [right; by left | by left].
      * assert (intern_table arith g1 !! s = intern_table arith g !! s) as ->.
        { destruct (intern_table arith g !! s) as [x |] eqn:T.
          - eapply exec_table_keeps; [| done]. by rewrite exec_intern_op, E.
          - eapply exec_table_fresh; [| | done]; [by rewrite exec_intern_op, E |].
            destruct arith; simpl; congruence. }
        split.
        -- intros [H | H]; [by left | right; by right].
        -- intros [H | [H | H]]; [by left | done | by right].
    + assert (intern_table arith g1 !! s = intern_table arith g !! s) as ->; [| done].
      destruct (intern_table arith g !! s) as [x |] eqn:T.
      * by eapply exec_table_keeps.
      * eapply exec_table_fresh; [done | | done].
        intros ->. by rewrite (proj2 (intern_text_spec arith _ s)) in Ht.
Qed.

Lemma run_table_dom arith ops hs g :
  run ops empty_graph = Ret (hs, g) →
  dom (intern_table arith g) = list_to_set (intern_texts arith ops).
Proof.
  intros R. apply set_eq. intros s.
  rewrite elem_of_dom, elem_of_list_to_set, (run_table_bound arith s _ _ _ _ R).
  split; [| by right]. intros [[x H] | H]; [| done]. by destruct arith.
Qed.

(** X6 (keys of a table). After a run on a fresh graph the texts bound in the
    table of a flavour are exactly the texts the calls of this flavour
    passed; a call of the other flavour or of another member binds none. *)
Theorem table_keys (arith : bool) (ops : list op) (hs : list ast_id)
    (g : verilog_ast_graph) :
  run ops empty_graph = Ret (hs, g) →
  dom (intern_table arith g) = list_to_set (intern_texts arith ops).
Proof.
  intros R. by apply run_table_dom with hs.
Qed.

Lemma table_keys_witness :
  dom (identifier_hash_ (graph_of mixed)) = list_to_set (intern_texts false mixed).
Proof. apply (table_keys false mixed [0; 1; 2; 0; 3; 4; 5; 0]). reflexivity. Defined.

(** ** The number of nodes *)

Lemma plain_calls_cons o ops :
  plain_calls (o :: ops) = ((if is_intern_op o then 0 else 1) + plain_calls ops)%nat.
Proof.
  unfold plain_calls. rewrite filter_cons.
  destruct (is_intern_op o); by case_decide.
Qed.

Lemma exec_count o g h g' :
  exec o g = Ret (h, g') →
  (length (nodes_ g') + base.size (identifier_hash_ g) + base.size (arithmetic_identifier_hash_ g)
   = length (nodes_ g) + (if is_intern_op o then 0 else 1)
     + base.size (identifier_hash_ g') + base.size (arithmetic_identifier_hash_ g'))%nat.
Proof.
  intros E. destruct o; simpl in E;
    try (injection E as <- <-; simpl; rewrite length_app; simpl; lia).
  - unfold create_identifier in E. destruct (identifier_hash_ g !! identifier) eqn:L.
    + injection E as <- <-. simpl. lia.
    + simpl in E. injection E as <- <-. simpl.
      rewrite emplace_fresh, map_size_insert_None, length_app by done. simpl. lia.
  - unfold create_arithmetic_identifier in E.
    destruct (arithmetic_identifier_hash_ g !! identifier) eqn:L.
    + injection E as <- <-. simpl. lia.
    + simpl in E. injection E as <- <-. simpl.
      rewrite emplace_fresh, map_size_insert_None, length_app by done. simpl. lia.
  - unfold create_input_declaration, checked_node in E.
    outcome_inv; rewrite length_app; simpl; lia.
  - unfold create_input_declaration_range, checked_node,
      static_cast_range_expression in E.
    outcome_inv; rewrite length_app; simpl; lia.
  - unfold create_output_declaration, checked_node in E.
    outcome_inv; rewrite length_app; simpl; lia.
  - unfold create_output_declaration_range, checked_node,
      static_cast_range_expression in E.
    outcome_inv; rewrite length_app; simpl; lia.
  - unfold create_wire_declaration, checked_node in E.
    outcome_inv; rewrite length_app; simpl; lia.
  - unfold create_wire_declaration_range, checked_node,
      static_cast_range_expression in E.
    outcome_inv; rewrite length_app; simpl; lia.
Qed.

Lemma run_count ops g hs g' :
  run ops g = Ret (hs, g') →
  (length (nodes_ g') + base.size (identifier_hash_ g) + base.size (arithmetic_identifier_hash_ g)
   = length (nodes_ g) + plain_calls ops
     + base.size (identifier_hash_ g') + base.size (arithmetic_identifier_hash_ g'))%nat.
Proof.
  revert g hs. induction ops as [| o ops IH]; intros g hs R.
  - injection R as <- <-. unfold plain_calls. simpl. lia.
  - apply run_cons_inv in R as (h & g1 & hs1 & E & R & ->).
    apply exec_count in E. apply IH in R. rewrite plain_calls_cons. lia.
Qed.

(** X7 (number of nodes). After a run on a fresh graph the number of nodes
    is the number of calls other than the two identifier calls, plus the
    number of different texts passed to [create_identifier], plus the number
    of different texts passed to [create_arithmetic_identifier]. *)
Theorem node_count (ops : list op) (hs : list ast_id) (g : verilog_ast_graph) :
  run ops empty_graph = Ret (hs, g) →
  length (nodes_ g)
  = (plain_calls ops
     + base.size (list_to_set (intern_texts false ops) : gset string)
     + base.size (list_to_set (intern_texts true ops) : gset string))%nat.
Proof.
  intros R.
  rewrite <- (run_table_dom false _ _ _ R), <- (run_table_dom true _ _ _ R), !size_dom.
  apply run_count in R. simpl in *. rewrite !map_size_empty in R. lia.
Qed.

Lemma node_count_witness :
  length (nodes_ (graph_of mixed))
  = (plain_calls mixed
     + base.size (list_to_set (intern_texts false mixed) : gset string)
     + base.size (list_to_set (intern_texts true mixed) : gset string))%nat.
Proof. apply (node_count mixed [0; 1; 2; 0; 3; 4; 5; 0]). reflexivity. Defined.

(** ** Calls that do not intern *)

(** X8 (no sharing outside the intern tables). Every successful call other
    than the two identifier calls appends exactly one node, whatever the
    graph already holds, returns the index of that node narrowed to 32 bits,
    and leaves both intern tables as they are; while a 32-bit handle is free
    the returned handle named no node before the call and names the new node
    after it. *)
Theorem plain_call_appends (o : op) (g : verilog_ast_graph) (h : ast_id)
    (g' : verilog_ast_graph) :
  is_intern_op o = false →
  exec o g = Ret (h, g') →
  ∃ n, nodes_ g' = nodes_ g ++ [n] ∧
       h = to_uint32 (size g) ∧ id n = h ∧
       identifier_hash_ g' = identifier_hash_ g ∧
       arithmetic_identifier_hash_ g' = arithmetic_identifier_hash_ g ∧
       (size g < uint32_max →
          node_ptr g h = Throw_out_of_range ∧ node_ptr g' h = Ret n).
Proof.
  intros Hp E.
  assert (∃ n, g' = mk_graph (nodes_ g ++ [n]) (identifier_hash_ g)
                             (arithmetic_identifier_hash_ g) ∧
               h = to_uint32 (size g) ∧ id_ n = h) as (n & -> & -> & Hid).
  { destruct o; simpl in E; try done;
      try (injection E as <- <-; by eexists);
      unfold create_input_declaration, create_input_declaration_range,
             create_output_declaration, create_output_declaration_range,
             create_wire_declaration, create_wire_declaration_range, checked_node,
             static_cast_range_expression in E;
      outcome_inv; by eexists. }
  exists n. split_and!; try done. intros B. rewrite to_uint32_small by done. split.
  - by apply node_ptr_out_of_range.
  - apply node_ptr_Ret. simpl. unfold size. rewrite Nat2N.id. by apply list_lookup_middle.
Qed.

Lemma plain_call_appends_witness :
  ∃ n, nodes_ (create_numeral "7" (graph_of ranged_wire)).2
         = nodes_ (graph_of ranged_wire) ++ [n] ∧
       4 = to_uint32 (size (graph_of ranged_wire)) ∧ id n = 4 ∧
       identifier_hash_ (create_numeral "7" (graph_of ranged_wire)).2
         = identifier_hash_ (graph_of ranged_wire) ∧
       arithmetic_identifier_hash_ (create_numeral "7" (graph_of ranged_wire)).2
         = arithmetic_identifier_hash_ (graph_of ranged_wire) ∧
       (size (graph_of ranged_wire) < uint32_max →
          node_ptr (graph_of ranged_wire) 4 = Throw_out_of_range ∧
          node_ptr (create_numeral "7" (graph_of ranged_wire)).2 4 = Ret n).
Proof.
  apply (plain_call_appends (Create_numeral "7") (graph_of ranged_wire) 4
           (create_numeral "7" (graph_of ranged_wire)).2); reflexivity.
Defined.

(** ** Classes of fixed shape *)

(** X9 (fixed arities). In a graph built by create calls a node of a class of
    fixed shape has the number of children of its class: none for Numeral,
    Identifier, ArithmeticIdentifier, Module and ModuleInstantiation, one for
    Sign and for a NOT expression, two for ArraySelect, RangeExpression,
    ParameterDeclaration, Assignment and every other expression; it is a
    leaf exactly when that number is 0, and [foreach_child] runs its
    callback that many times. *)
Theorem fixed_arity (g : verilog_ast_graph) (h : ast_id) (n : ast_node) (k : nat) :
  reachable g →
  node_ptr g h = Ret n →
  arity (variant_ n) = Some k →
  length (children_ n) = k ∧ visits n = k ∧ (is_leaf n = true ↔ k = 0%nat).
Proof.
  intros Rg L%node_ptr_Ret A.
  pose proof (wf_shapes g (reachable_wf g Rg) _ _ L) as Hs.
  assert (length (children_ n) = k) as Hl.
  { unfold shape_ok in Hs. destruct (variant_ n) as [| | | | | | | [] | | | | | | | |];
      simpl in A; try done; injection A as <-;
      repeat match goal with H : ∃ _, _ |- _ => destruct H as [? H] end;
      by rewrite Hs. }
  rewrite visits_children. split_and!; [done | done |].
  unfold is_leaf. rewrite Hl. destruct k; simpl; split; (done || lia).
Qed.

Lemma fixed_arity_witness :
  length (children_ (ast_expression1 3 EXPR_NOT 2)) = 1%nat ∧
  visits (ast_expression1 3 EXPR_NOT 2) = 1%nat ∧
  (is_leaf (ast_expression1 3 EXPR_NOT 2) = true ↔ 1%nat = 0%nat).
Proof.
  apply (fixed_arity (graph_of negated) 3); try reflexivity.
  exists negated, [0; 1; 2; 3]. reflexivity.
Defined.

Lemma exec_expression o g k l r :
  expression_call o = Some (k, l, r) →
  exec o g = Ret (create_node
                    (λ i, mk_ast_node i (l :: match r with Some e => [e] | None => [] end)
                            (Expression k)) g).
Proof. destruct o; simpl; try done; by intros [= <- <- <-]. Qed.

(** X10 (operands of an expression). After a run on a fresh graph, the
    handle that a call of an expression member returned (while at most
    [2^32] nodes exist) names a node on which [kind()] is the kind of that
    member (ADD for [create_sum_expression], NOT for
    [create_not_expression], and so on), [left()] returns the first argument
    of the call and [right()] the second one; on the node of
    [create_not_expression] the assertion of [right()] is violated. And on
    every Expression node of the graph [left()] returns the first child, and
    [right()] the second child unless the kind is NOT. *)
Theorem expression_operands (ops : list op) (hs : list ast_id) (g : verilog_ast_graph) :
  run ops empty_graph = Ret (hs, g) →
  (size g ≤ uint32_max →
   ∀ i o h k l r,
     ops !! i = Some o → hs !! i = Some h →
     expression_call o = Some (k, l, r) →
     ∃ n, node_ptr g h = Ret n ∧
          ast_expression.kind n = Some k ∧
          ast_expression.left n = Ret l ∧
          ast_expression.right n = match r with Some e => Ret e | None => Assert_fail end) ∧
  (∀ h n k,
     node_ptr g h = Ret n →
     variant_ n = Expression k →
     ast_expression.kind n = Some k ∧
     (k = EXPR_NOT →
        ∃ a, children_ n = [a] ∧ ast_expression.left n = Ret a ∧
             ast_expression.right n = Assert_fail) ∧
     (k ≠ EXPR_NOT →
        ∃ a b, children_ n = [a; b] ∧ ast_expression.left n = Ret a ∧
               ast_expression.right n = Ret b)).
Proof.
  intros R. split.
  - intros B i o h k l r Lo Lh Hc.
    destruct (run_at _ _ _ _ _ _ R Lo) as (h' & g1 & g2 & hs2 & Lh' & _ & _ & _ & E & R2 & _).
    assert (h' = h) as -> by congruence.
    rewrite (exec_expression o g1 k l r Hc) in E. unfold create_node in E.
    injection E as Hh Hg.
    pose proof (run_prefix _ _ _ _ R2) as P2.
    assert (size g1 < uint32_max) as B1.
    { pose proof (prefix_size _ _ P2) as Hs. rewrite <- Hg in Hs. unfold size in *.
      simpl in Hs. rewrite length_app in Hs. simpl in Hs. lia. }
    rewrite to_uint32_small in Hh, Hg by done. subst h.
    eexists. split; [| split_and!].
    + apply (prefix_node_ptr _ _ _ _ P2). apply node_ptr_Ret. rewrite <- Hg. simpl.
      unfold size. rewrite Nat2N.id. by apply list_lookup_middle.
    + reflexivity.
    + by destruct r.
    + by destruct r.
  - intros h n k L%node_ptr_Ret V.
    assert (Rg : reachable g) by by exists ops, hs.
    pose proof (wf_shapes g (reachable_wf g Rg) _ _ L) as Hs.
    unfold shape_ok in Hs. rewrite V in Hs.
    unfold ast_expression.kind, ast_expression.left, ast_expression.right, child_at.
    rewrite V. split_and!; [done | |].
    + intros ->. destruct Hs as [a Hs]. exists a. by rewrite Hs.
    + intros Hk. destruct k; try done; destruct Hs as (a & b & Hs); exists a, b; by rewrite Hs.
Qed.

Lemma expression_operands_witness :
  (∃ n, node_ptr (graph_of negated) 2 = Ret n ∧
        ast_expression.kind n = Some EXPR_XOR ∧
        ast_expression.left n = Ret 0 ∧
        ast_expression.right n = Ret 1) ∧
  (∃ n, node_ptr (graph_of negated) 3 = Ret n ∧
        ast_expression.kind n = Some EXPR_NOT ∧
        ast_expression.left n = Ret 2 ∧
        ast_expression.right n = Assert_fail).
Proof.
  destruct (expression_operands negated [0; 1; 2; 3] (graph_of negated) eq_refl) as [H _].
  assert (B : size (graph_of negated) ≤ uint32_max) by by vm_compute.
  split.
  - apply (H B 2%nat (Create_xor_expression 0 1) 2 EXPR_XOR 0 (Some 1)); reflexivity.
  - apply (H B 3%nat (Create_not_expression 2) 3 EXPR_NOT 2 None); reflexivity.
Defined.

(** ** Outcomes of the adapters *)

Lemma checked_node_out_of_range g h : size g ≤ h → checked_node g h = Assert_fail.
Proof.
  intros H. unfold checked_node. destruct (N.ltb_spec h (size g)); [lia | done].
Qed.

Lemma checked_node_cases g h :
  checked_node g h = Assert_fail ∨ ∃ n, node_ptr g h = Ret n ∧ checked_node g h = Ret n.
Proof.
  destruct (N.lt_ge_cases h (size g)) as [Hlt | Hge].
  - right. destruct (node_ptr_in_range g h Hlt) as [n Hn]. exists n.
    split; [done | by apply checked_node_Ret].
  - left. by apply checked_node_out_of_range.
Qed.

Lemma create_declaration_unfold k src g :
  create_declaration k src g =
    (node ← checked_node g src;
     match normalized src node with
     | Some ids => Ret (create_node (λ i, mk_ast_node i ids (decl_variant k Bit_level)) g)
     | None => Abort
     end).
Proof.
  unfold normalized.
  destruct k; simpl;
    unfold create_input_declaration, create_output_declaration, create_wire_declaration;
    destruct (checked_node g src) as [n | | | |]; simpl; try done; by destruct (variant_ n).
Qed.

Lemma create_declaration_range_unfold k src rid g :
  create_declaration_range k src rid g =
    (node ← checked_node g src;
     range ← checked_node g rid;
     range ← static_cast_range_expression range;
     match normalized src node with
     | Some ids =>
         hi ← range_hi range; lo ← range_lo range;
         Ret (create_node (λ i, mk_ast_node i ids (decl_variant k (Word_level hi lo))) g)
     | None => Abort
     end).
Proof.
  unfold normalized.
  destruct k; simpl;
    unfold create_input_declaration_range, create_output_declaration_range,
           create_wire_declaration_range;
    destruct (checked_node g src) as [n | | | |]; simpl; try done;
    destruct (checked_node g rid) as [r | | | |]; simpl; try done;
    destruct (static_cast_range_expression r); simpl; try done;
    by destruct (variant_ n).
Qed.

(** X11 (failures of the adapters). For each of the six adapters: a handle
    argument that is not below the size of the graph violates the assertion
    at the head of the adapter, also when the other argument would make it
    abort; in the two-argument form, a handle [rid] that names a node with
    fewer than two children makes [hi()] or [lo()] index its children out of
    bounds; and no adapter ever throws. *)
Theorem adapter_failures (k : decl_kind) (g : verilog_ast_graph) (src rid : ast_id) :
  (size g ≤ src →
     create_declaration k src g = Assert_fail ∧
     create_declaration_range k src rid g = Assert_fail) ∧
  (size g ≤ rid → create_declaration_range k src rid g = Assert_fail) ∧
  (∀ n r ids,
     node_ptr g src = Ret n → node_ptr g rid = Ret r →
     normalized src n = Some ids → (length (children_ r) < 2)%nat →
     create_declaration_range k src rid g = Undefined) ∧
  create_declaration k src g ≠ Throw_out_of_range ∧
  create_declaration_range k src rid g ≠ Throw_out_of_range.
Proof.
  rewrite create_declaration_unfold, create_declaration_range_unfold. split_and!.
  - intros H. by rewrite (checked_node_out_of_range g src H).
  - intros H. rewrite (checked_node_out_of_range g rid H).
    destruct (checked_node_cases g src) as [-> | (n & _ & ->)]; reflexivity.
  - intros n r ids Ln%checked_node_Ret Lr%checked_node_Ret Hn Hc.
    rewrite Ln, Lr. simpl. unfold static_cast_range_expression.
    destruct (variant_ r); try reflexivity. simpl. rewrite Hn.
    unfold range_hi, range_lo, child_at.
    destruct (children_ r) as [| a [| b rest]]; simpl in *; (done || lia).
  - destruct (checked_node_cases g src) as [-> | (n & _ & ->)]; [done |]. simpl.
    by destruct (normalized src n).
  - destruct (checked_node_cases g src) as [-> | (n & _ & ->)]; [done |].
    destruct (checked_node_cases g rid) as [-> | (r & _ & ->)]; [done |]. simpl.
    unfold static_cast_range_expression.
    destruct (variant_ r); try done. simpl.
    destruct (normalized src n); [| done].
    unfold range_hi, range_lo, child_at.
    by destruct (children_ r) as [| a [| b rest]].
Qed.

Lemma adapter_failures_witness :
  (size (graph_of ranged_wire) ≤ 9 →
     create_declaration Wire_decl 9 (graph_of ranged_wire) = Assert_fail ∧
     create_declaration_range Wire_decl 9 0 (graph_of ranged_wire) = Assert_fail) ∧
  (∀ n r ids,
     node_ptr (graph_of ranged_wire) 3 = Ret n → node_ptr (graph_of ranged_wire) 0 = Ret r →
     normalized 3 n = Some ids → (length (children_ r) < 2)%nat →
     create_declaration_range Wire_decl 3 0 (graph_of ranged_wire) = Undefined).
Proof.
  split.
  - apply (adapter_failures Wire_decl (graph_of ranged_wire) 9 0).
  - apply (adapter_failures Wire_decl (graph_of ranged_wire) 3 0).
Defined.

(** ** The non-const traversal *)

Lemma foreach_ref_length {St : Type} (fn : ast_id → St → ast_id * St) cs s :
  length (foreach_ref fn cs s).1 = length cs.
Proof.
  revert s. induction cs as [| c cs IH]; intros s; simpl; [done |].
  destruct (fn c s) as [c' s1]. specialize (IH s1).
  destruct (foreach_ref fn cs s1) as [cs' s2]. simpl in *. by rewrite IH.
Qed.

Lemma foreach_ref_read_only {St : Type} (f : ast_id → St → St) cs s :
  foreach_ref (λ c s, (c, f c s)) cs s = (cs, foldl (λ acc child, f child acc) s cs).
Proof.
  revert s. induction cs as [| c cs IH]; intros s; simpl; [done |]. by rewrite IH.
Qed.

(** X12 (non-const traversal). Whatever its callback does, the non-const
    [foreach_child] keeps the handle and the class of the node and the number
    of its children: it can only overwrite child handles in place. With a
    callback that leaves the child as it is, it leaves the node as it is and
    has the effect of the const [foreach_child]. *)
Theorem mutable_traversal {St : Type} (n : ast_node) (s : St) :
  (∀ fn : ast_id → St → ast_id * St,
     id_ (foreach_child_mut fn n s).1 = id_ n ∧
     variant_ (foreach_child_mut fn n s).1 = variant_ n ∧
     length (children_ (foreach_child_mut fn n s).1) = length (children_ n)) ∧
  (∀ f : ast_id → St → St,
     foreach_child_mut (λ c s, (c, f c s)) n s = (n, foreach_child f n s)).
Proof.
  split.
  - intros fn. unfold foreach_child_mut.
    pose proof (foreach_ref_length fn (children_ n) s) as Hl.
    destruct (foreach_ref fn (children_ n) s) as [cs s']. by simpl in *.
  - intros f. unfold foreach_child_mut, foreach_child.
    rewrite foreach_ref_read_only. by destruct n.
Qed.

(** ** Limits of the handle-or-error encoding *)

Lemma lor_top_bit b : b < 2 ^ 31 → N.lor b 0x80000000 = b + 2 ^ 31.
Proof.
  intros B.
  assert (N.land b 0x80000000 = 0) as Hd.
  { rewrite <- (N.mod_small b (2 ^ 31)) by done.
    rewrite <- N.land_ones, <- N.land_assoc.
    replace (N.land (N.ones 31) 0x80000000) with 0 by reflexivity.
    apply N.land_0_r. }
  rewrite <- (N.lxor_lor _ _ Hd). symmetry. by apply N.add_nocarry_lxor.
Qed.

(** X13 (limits of the encoding). For a 32-bit argument [a] the value
    constructed from [a] is valid and still fits 32 bits, and its payload is
    [a] exactly when [a < 2^31]: an argument with the top bit set loses it,
    its payload is [a - 2^31] and the value is the one constructed from
    [a - 2^31]. *)
Theorem encoding_limits (a : ast_id) :
  a < uint32_max →
  ast_or_error.to_bool (ast_or_error.of_ast a) = true ∧
  ast_or_error.ast_ (ast_or_error.of_ast a) < uint32_max ∧
  (ast_or_error.ast (ast_or_error.of_ast a) = a ↔ a < 2 ^ 31) ∧
  (2 ^ 31 ≤ a →
     ast_or_error.ast (ast_or_error.of_ast a) = a - 2 ^ 31 ∧
     ast_or_error.of_ast a = ast_or_error.of_ast (a - 2 ^ 31)).
Proof.
  unfold uint32_max. intros B.
  assert (Hhigh : 2 ^ 31 ≤ a → N.lor a 0x80000000 = a).
  { intros H. replace a with ((a - 2 ^ 31) + 2 ^ 31) at 1 2 by lia.
    rewrite <- lor_top_bit by lia.
    by rewrite <- N.lor_assoc, N.lor_diag. }
  split_and!.
  - apply ast_or_error_facts.valid_of_ast.
  - unfold ast_or_error.of_ast. simpl.
    destruct (N.lt_ge_cases a (2 ^ 31)) as [Hlt | Hge].
    + rewrite lor_top_bit by done. lia.
    + by rewrite Hhigh.
  - rewrite ast_or_error_facts.ast_of_ast. split.
    + intros H. rewrite <- H. by apply N.mod_lt.
    + intros H. by apply N.mod_small.
  - intros Hge. rewrite ast_or_error_facts.ast_of_ast. split.
    + replace a with ((a - 2 ^ 31) + 1 * 2 ^ 31) at 1 by lia.
      rewrite N.Div0.mod_add. apply N.mod_small. lia.
    + unfold ast_or_error.of_ast. f_equal.
      rewrite (lor_top_bit (a - 2 ^ 31)) by lia. rewrite Hhigh by done. lia.
Qed.

Lemma encoding_limits_witness :
  ast_or_error.to_bool (ast_or_error.of_ast 0x80000007) = true ∧
  ast_or_error.ast_ (ast_or_error.of_ast 0x80000007) < uint32_max ∧
  (ast_or_error.ast (ast_or_error.of_ast 0x80000007) = 0x80000007 ↔ 0x80000007 < 2 ^ 31) ∧
  (2 ^ 31 ≤ 0x80000007 →
     ast_or_error.ast (ast_or_error.of_ast 0x80000007) = 0x80000007 - 2 ^ 31 ∧
     ast_or_error.of_ast 0x80000007 = ast_or_error.of_ast (0x80000007 - 2 ^ 31)).
Proof. apply (encoding_limits 0x80000007). reflexivity. Defined.

(** ** A handle tells the identifier *)

(** X14 (a handle tells the identifier). In a graph built by create calls
    with at most [2^32] nodes, a handle is bound to at most one text in at
    most one of the two intern tables: two bindings to the same handle are
    of the same flavour and for the same text. *)
Theorem handle_tells_identifier (a1 a2 : bool) (s1 s2 : string) (h : ast_id)
    (g : verilog_ast_graph) :
  reachable g →
  size g ≤ uint32_max →
  intern_table a1 g !! s1 = Some h →
  intern_table a2 g !! s2 = Some h →
  a1 = a2 ∧ s1 = s2.
Proof.
  intros Rg B T1 T2. pose proof (reachable_wf g Rg) as W.
  pose proof (table_names_node a1 s1 h g W B T1) as N1.
  pose proof (table_names_node a2 s2 h g W B T2) as N2.
  rewrite N1 in N2. destruct a1, a2; simpl in N2; by simplify_eq.
Qed.

Lemma handle_tells_identifier_witness : false = false ∧ "x" = "x".
Proof.
  apply (handle_tells_identifier false false "x" "x" 0 (graph_of mixed)).
  - exists mixed, [0; 1; 2; 0; 3; 4; 5; 0]. reflexivity.
  - by vm_compute.
  - reflexivity.
  - reflexivity.
Defined.

(** ** Handles in the data members *)

(** Where the handles in the data members of an appended node come from. *)
Lemma exec_payload o g h g' n :
  exec o g = Ret (h, g') → nodes_ g' = nodes_ g ++ [n] →
  ∀ c, c ∈ payload_handles (variant_ n) →
    c ∈ payload_arguments o ∨ ∃ i old, nodes_ g !! i = Some old ∧ c ∈ children_ old.
Proof.
  intros E Hn.
  destruct o; simpl in E;
    try (injection E as _ E; rewrite <- E in Hn; simpl in Hn;
         apply app_inv_head in Hn; injection Hn as <-; simpl; intros c Hc;
         first [by apply elem_of_nil in Hc | by left]).
  - unfold create_identifier in E. destruct (identifier_hash_ g !! identifier); simpl in E.
    + injection E as _ <-. apply (f_equal length) in Hn. rewrite length_app in Hn.
      simpl in Hn. lia.
    + injection E as _ E. rewrite <- E in Hn. simpl in Hn.
      apply app_inv_head in Hn. injection Hn as <-. simpl. by intros c Hc%elem_of_nil.
  - unfold create_arithmetic_identifier in E.
    destruct (arithmetic_identifier_hash_ g !! identifier); simpl in E.
    + injection E as _ <-. apply (f_equal length) in Hn. rewrite length_app in Hn.
      simpl in Hn. lia.
    + injection E as _ E. rewrite <- E in Hn. simpl in Hn.
      apply app_inv_head in Hn. injection Hn as <-. simpl. by intros c Hc%elem_of_nil.
  - revert Hn. unfold create_input_declaration, checked_node in E. outcome_inv;
      intros Hn%app_inv_head; injection Hn as <-; simpl; by intros c Hc%elem_of_nil.
  - revert Hn. unfold create_input_declaration_range, checked_node,
      static_cast_range_expression, range_hi, range_lo,
      child_at in E. outcome_inv;
      intros Hn%app_inv_head; injection Hn as <-; simpl; intros c Hc; right;
      set_unfold; destruct Hc as [-> | [-> | []]]; eauto using list_elem_of_lookup_2.
  - revert Hn. unfold create_output_declaration, checked_node in E. outcome_inv;
      intros Hn%app_inv_head; injection Hn as <-; simpl; by intros c Hc%elem_of_nil.
  - revert Hn. unfold create_output_declaration_range, checked_node,
      static_cast_range_expression, range_hi, range_lo,
      child_at in E. outcome_inv;
      intros Hn%app_inv_head; injection Hn as <-; simpl; intros c Hc; right;
      set_unfold; destruct Hc as [-> | [-> | []]]; eauto using list_elem_of_lookup_2.
  - revert Hn. unfold create_wire_declaration, checked_node in E. outcome_inv;
      intros Hn%app_inv_head; injection Hn as <-; simpl; by intros c Hc%elem_of_nil.
  - revert Hn. unfold create_wire_declaration_range, checked_node,
      static_cast_range_expression, range_hi, range_lo,
      child_at in E. outcome_inv;
      intros Hn%app_inv_head; injection Hn as <-; simpl; intros c Hc; right;
      set_unfold; destruct Hc as [-> | [-> | []]]; eauto using list_elem_of_lookup_2.
Qed.

Lemma exec_stored o g h g' :
  wf g → stored_precede g →
  Forall (λ c, c < size g) (child_arguments o ++ payload_arguments o) →
  exec o g = Ret (h, g') → stored_precede g'.
Proof.
  intros W A F E.
  destruct (exec_cases _ _ _ _ E) as [[_ ->] | (n & Hn & -> & Hid & _ & Hc & _)]; [done |].
  rewrite Forall_forall in F.
  assert (Hold : ∀ c, (∃ i old, nodes_ g !! i = Some old ∧ c ∈ children_ old) →
                      size g < uint32_max → c < size g).
  { intros c (j & old & Lo & Ho) B. pose proof (lookup_size _ _ _ Lo) as Hj.
    assert (c < id_ old) by (eapply A; [done | lia | set_solver]).
    rewrite (wf_id_index g j old) in * by (done || lia). lia. }
  intros i m c. rewrite Hn. intros [[_ L] | [-> ->]]%lookup_snoc_Some B Hin.
  - eauto.
  - fold (size g) in B. rewrite Hid, to_uint32_small by done.
    apply elem_of_app in Hin as [Hin | Hin].
    + destruct (Hc c Hin) as [Harg | Ho]; [apply F; set_solver | by apply Hold].
    + destruct (exec_payload _ _ _ _ _ E Hn c Hin) as [Harg | Ho];
        [apply F; set_solver | by apply Hold].
Qed.

Lemma run_stored ops g hs g' :
  wf g → stored_precede g → handles_valid ops g → run ops g = Ret (hs, g') →
  stored_precede g'.
Proof.
  revert g hs g'. induction ops as [| o ops IH]; intros g hs g' W A V R.
  - by injection R as <- <-.
  - destruct V as [F V]. apply run_cons_inv in R as (h & g1 & hs1 & E & R & ->).
    rewrite E in V.
    eapply IH; [by eapply exec_wf | by eapply exec_stored | done | done].
Qed.

(** X15 (stored handles precede). When every call passes only handles of
    nodes the graph holds at the time of the call, every handle that a node
    of the final graph stores, as a child or in a data member ([fun_], [hi_],
    [lo_], the names, ports and parameters of an instantiation, the args and
    decls of a module), is strictly below the node's own handle and names a
    node that reports it: the graph has no cycle and no dangling handle. *)
Theorem stored_handles_precede (ops : list op) (hs : list ast_id)
    (g : verilog_ast_graph) (h : ast_id) (n : ast_node) (c : ast_id) :
  run ops empty_graph = Ret (hs, g) →
  handles_valid ops empty_graph →
  h < uint32_max →
  node_ptr g h = Ret n →
  c ∈ children_ n ++ payload_handles (variant_ n) →
  c < id n ∧ ∃ m, node_ptr g c = Ret m ∧ id m = c.
Proof.
  intros R V B Hn Hc.
  assert (W : wf g) by (eapply run_wf; [apply wf_empty | done]).
  assert (A : stored_precede g).
  { eapply run_stored; [apply wf_empty | | done | done].
    intros i m c' L. by destruct i. }
  apply node_ptr_Ret in Hn.
  assert (c < id_ n) as Hlt by (eapply A; [done | by rewrite N2Nat.id | done]).
  split; [done |].
  rewrite (wf_id_index g _ n W Hn) in Hlt by by rewrite N2Nat.id.
  rewrite N2Nat.id in Hlt. pose proof (lookup_size _ _ _ Hn) as Hs.
  rewrite N2Nat.id in Hs.
  destruct (node_ptr_in_range g c ltac:(lia)) as [m Hm]. exists m. split; [done |].
  apply node_ptr_Ret in Hm. unfold id.
  rewrite (wf_id_index g _ m W Hm); rewrite N2Nat.id; (done || lia).
Qed.

Lemma stored_handles_precede_witness :
  0 < id (ast_system_function 2 0 [1]) ∧
  ∃ m, node_ptr (graph_of called) 0 = Ret m ∧ id m = 0.
Proof.
  apply (stored_handles_precede called [0; 1; 2] (graph_of called) 2).
  - reflexivity.
  - simpl. repeat (split; [repeat constructor |]). exact I.
  - reflexivity.
  - reflexivity.
  - simpl. apply list_elem_of_further. apply list_elem_of_here.
Defined.
